(** * Forecast diagnostics and metrics engine: a shallow embedding

    This development embeds [ARIMADiagnostics]
    (ml_backend/visualization/forecast_diagnostics.py) in Rocq and checks
    the properties the specification states about it.

    - numpy's [float64] is IEEE 754 binary64; it is modelled by the
      Standard Library's executable specification [spec_float] at
      precision 53 and maximal exponent 1024, so NaN, the infinities,
      signed zeros, rounding and overflow are those of the program;
    - the fitted model is an opaque handle (a record of what the engine
      reads from it); the statistical routines of scipy, statsmodels and
      pandas, and Python's [round], are fields of a library record;
    - attribute reads, log calls and exceptions are threaded through a
      small trace-and-exception monad, so that "returns absent without
      raising and without reading the model" is a statement. *)

From Stdlib Require Import ZArith Lia Bool.
From Stdlib Require Import Floats.SpecFloat.
From stdpp Require Import base option list strings pretty gmap sorting.

Set Default Proof Using "Type".
Local Open Scope Z_scope.

(** ** binary64 *)

Module F64.

Definition prec : Z := 53.
Definition emax : Z := 1024.

Definition float := spec_float.

Definition add : float → float → float := SFadd prec emax.
Definition sub : float → float → float := SFsub prec emax.
Definition mul : float → float → float := SFmul prec emax.
Definition div : float → float → float := SFdiv prec emax.
Definition sqrt : float → float := SFsqrt prec emax.
Definition abs : float → float := SFabs.
Definition opp : float → float := SFopp.
Definition eqb : float → float → bool := SFeqb.
Definition ltb : float → float → bool := SFltb.
Definition leb : float → float → bool := SFleb.

(** Conversion of a Python [int] (a length, a literal) to [float64]:
    round to nearest, ties to even. *)
Definition of_Z (z : Z) : float := binary_normalize prec emax z 0 false.

Definition zero : float := S754_zero false.
Definition nan : float := S754_nan.
Definition inf : float := S754_infinity false.

(** The literals of the source, as the nearest binary64 values. *)
Definition c0_05 : float := S754_finite false 7205759403792794 (-57).
Definition c0_95 : float := S754_finite false 8556839292003942 (-53).
Definition c1_96 : float := S754_finite false 8827055269646172 (-52).
Definition c1 : float := S754_finite false 4503599627370496 (-52).
Definition c100 : float := S754_finite false 7036874417766400 (-46).

(** [np.isnan] *)
Definition isnan (x : float) : bool :=
  match x with S754_nan => true | _ => false end.

(** Neither NaN nor an infinity. *)
Definition is_finite (x : float) : bool :=
  match x with S754_zero _ | S754_finite _ _ _ => true | _ => false end.

(** Not an infinity (a missing value, NaN, is allowed). *)
Definition no_inf (x : float) : bool :=
  match x with S754_infinity _ => false | _ => true end.

(** Python truthiness of a float: [bool(x)] is [x != 0.0]. *)
Definition truthy (x : float) : bool := negb (eqb x zero).

(** [x >= 0] *)
Definition ge0 (x : float) : bool := leb zero x.

(** [x < 0] *)
Definition lt0 (x : float) : bool := ltb x zero.

End F64.

Abbreviation float := F64.float.

(** The sign of a float that is not NaN (a zero has one too), and the two
    classes the metrics live in: [pos] is "not NaN, sign bit clear"
    (+0, the positive numbers, +inf); [npos] also allows NaN. *)
Definition signed (s : bool) (x : float) : Prop :=
  match x with
  | S754_nan => False
  | S754_zero s' | S754_infinity s' | S754_finite s' _ _ => s' = s
  end.

Definition pos : float → Prop := signed false.

Definition npos (x : float) : Prop := x = S754_nan ∨ pos x.

(** ** numpy arrays of [float64] *)

Definition len {A} (l : list A) : Z := Z.of_nat (length l).

(** [arr[start:]] with Python's treatment of a negative start. Note that
    [arr[-0:]] is [arr[0:]], the whole array. *)
Definition py_slice_from {A} (start : Z) (arr : list A) : list A :=
  let start' := if start <? 0 then Z.max 0 (start + len arr) else Z.min start (len arr) in
  drop (Z.to_nat start') arr.

(** [seq[i]] / [.iloc[i]]: a negative index counts from the end, an index
    out of range raises [IndexError]. *)
Definition py_index {A} (arr : list A) (i : Z) : option A :=
  let i' := if i <? 0 then i + len arr else i in
  if (i' <? 0) || (len arr <=? i') then None else arr !! Z.to_nat i'.

(** [range(n)] *)
Definition py_range (n : Z) : list Z := seqZ 0 n.

(** [a | b] on one-dimensional boolean arrays, with numpy's broadcasting:
    equal lengths, or one side of length one; anything else raises
    [ValueError]. *)
Definition np_or (a b : list bool) : option (list bool) :=
  if len a =? len b then Some (zip_with orb a b)
  else if len a =? 1 then Some (zip_with orb (replicate (length b) (default false (head a))) b)
  else if len b =? 1 then Some (zip_with orb a (replicate (length a) (default false (head b))))
  else None.

(** [arr[mask]] for a boolean mask: the mask must be as long as the
    array, otherwise [IndexError]; numpy checks the length of a mask
    only when the mask is not empty, so an empty mask is accepted on an
    array of any length and selects nothing. *)
Fixpoint select {A} (arr : list A) (mask : list bool) : list A :=
  match arr, mask with
  | x :: arr', b :: mask' => if b then x :: select arr' mask' else select arr' mask'
  | _, _ => []
  end.

Definition np_mask_index {A} (arr : list A) (mask : list bool) : option (list A) :=
  if len mask =? 0 then Some []
  else if len arr =? len mask then Some (select arr mask) else None.

(** [mask.sum()] *)
Definition np_count (mask : list bool) : Z := len (filter (λ b, b = true) mask).

(** [np.sum] of a contiguous array is numpy's pairwise summation, added
    to the identity of the addition: fewer than 8 elements are added up
    one after the other; up to 128 elements are added up in eight
    running sums, one per position modulo 8, which are added to each
    other at the end, followed by the elements beyond the last full
    group of eight; a longer array is cut in two, the first part a
    multiple of eight long, and the sums of the parts are added. *)
Definition sum_from (acc : float) (xs : list float) : float := foldl F64.add acc xs.

(** [groups] further groups of eight added onto the running sums [r]. *)
Fixpoint sum_groups (groups : nat) (r xs : list float) : list float * list float :=
  match groups with
  | O => (r, xs)
  | S groups' => sum_groups groups' (zip_with F64.add r (take 8 xs)) (drop 8 xs)
  end.

Definition sum_block (xs : list float) : float :=
  let '(r, rest) := sum_groups (length xs / 8 - 1) (take 8 xs) (drop 8 xs) in
  match r with
  | [r0; r1; r2; r3; r4; r5; r6; r7] =>
      sum_from (F64.add (F64.add (F64.add r0 r1) (F64.add r2 r3))
                        (F64.add (F64.add r4 r5) (F64.add r6 r7))) rest
  | _ => sum_from F64.zero xs
  end.

(** The recursion is on the length; [fuel] bounds its depth. *)
Fixpoint pairwise_sum (fuel : nat) (xs : list float) : float :=
  let n := length xs in
  if (n <? 8)%nat then sum_from F64.zero xs
  else if (n <=? 128)%nat then sum_block xs
  else match fuel with
       | O => sum_block xs
       | S fuel' =>
           let n2 := (n / 2 - (n / 2) mod 8)%nat in
           F64.add (pairwise_sum fuel' (take n2 xs)) (pairwise_sum fuel' (drop n2 xs))
       end.

Definition np_sum (xs : list float) : float :=
  F64.add F64.zero (pairwise_sum (length xs) xs).

(** [np.mean]: the sum divided by the count (for an empty array this is
    [0/0], NaN). *)
Definition np_mean (xs : list float) : float :=
  F64.div (np_sum xs) (F64.of_Z (len xs)).

(** [np.std]: the population standard deviation. *)
Definition np_std (xs : list float) : float :=
  let mu := np_mean xs in
  F64.sqrt (np_mean ((λ x, let d := F64.sub x mu in F64.mul d d) <$> xs)).

(** [Series.dropna()] *)
Definition dropna (xs : list float) : list float :=
  filter (λ x, F64.isnan x = false) xs.

(** [int(x)] for a float: truncation towards zero; NaN and the
    infinities raise. *)
Definition py_int (x : float) : option Z :=
  match x with
  | S754_zero _ => Some 0
  | S754_finite s m e =>
      let a := if 0 <=? e then Z.shiftl (Z.pos m) e else Z.shiftr (Z.pos m) (- e) in
      Some (if s then - a else a)
  | _ => None
  end.

(** ** Data model *)

(** What [get_forecast(steps)] returns: the point forecasts and the
    operation that derives the interval bounds at a significance level. *)
Module Forecast.
Record t := Build {
    predicted_mean : list float;
    conf_int : float → option (list (float * float))
  }.
End Forecast.

(** The fitted model: an opaque handle owned by the training subsystem.
    [endog] is [model.model.endog], flattened. *)
Module Model.
Record t := Build {
    resid : list float;
    fittedvalues : list float;
    endog : list float;
    aic : float;
    bic : float;
    get_forecast : Z → option Forecast.t
  }.
End Model.

(** The per-district training statistics, a dict whose keys may be
    missing. *)
Module Stats.
Record t := Build {
    order : option (Z * Z * Z);
    data_points : option Z;
    mean : option float;
    std : option float
  }.
  (** [{}] *)
Definition empty : t := Build None None None None.
End Stats.

(** [self.models] is a Python dict: the traversal order is the insertion
    order, so it is kept as an association list (keys are looked up from
    the front). [self.district_stats] is only ever looked up. *)
Record ARIMADiagnostics := {
  models : list (string * Model.t);
  district_stats : gmap string Stats.t
}.

Fixpoint dict_get {V} (k : string) (d : list (string * V)) : option V :=
  match d with
  | [] => None
  | (k', v) :: d' => if decide (k = k') then Some v else dict_get k d'
  end.

Module Diag.
Record t := Build {
    district : string;
    adf_statistic : float;
    adf_pvalue : float;
    adf_critical_1pct : float;
    adf_critical_5pct : float;
    is_stationary : bool;
    ljung_box_pvalue : float;
    no_autocorrelation : bool;
    shapiro_pvalue : option float;
    residual_mean : float;
    residual_std : float;
    residual_skewness : float;
    residual_kurtosis : float;
    model_order : Z * Z * Z;
    aic : float;
    bic : float
  }.
End Diag.

Module Metrics.
Record t := Build {
    district : string;
    rmse : float;
    mae : float;
    mape : option float;
    aic : float;
    bic : float;
    ci_coverage_95 : option float;
    data_points : Z;
    mean_enrollment : float;
    std_enrollment : float
  }.
End Metrics.

(** A row of the summary table, with the column names of the source
    ("MAPE (%)", "ADF p-value", ...). *)
Module Row.
Record t := Build {
    District : string;
    RMSE : float;
    MAE : float;
    MAPE : option float;
    AIC : float;
    BIC : float;
    ADF_pvalue : float;
    Ljung_Box_pvalue : float;
    CI_Coverage : option float;
    Data_Points : Z;
    Order : string
  }.
End Row.

(** A row of forecasts.csv. *)
Module FRow.
Record t := Build {
    district : string;
    date : string;
    period : Z;
    forecast : float;
    lower_ci_95 : float;
    upper_ci_95 : float
  }.
End FRow.

(** A Plotly figure, reduced to what the engine puts into it: the traces
    (name, kind, dates and values), the horizontal reference lines, the title and
    the model annotation (order and AIC). *)
Module Fig.
Inductive kind := Scatter | Histogram | Bar.
Record trace := Trace { name : string; shape : kind; dates : list Z; values : list float }.
Record t := Build {
    title : string;
    traces : list trace;
    hlines : list float;
    annotation : option ((Z * Z * Z) * float)
  }.
End Fig.

(** ** Effects

    What the engine does besides computing: it reads attributes of a
    model object, looks up the training statistics, writes to the log and
    appends rows to the list that becomes forecasts.csv. A computation
    yields the effects it performed, in order, and either a value or
    nothing when an exception was raised; the effects performed before
    an exception stay. *)

Inductive attr :=
  | Resid | FittedValues | Endog | Aic | Bic
  | GetForecast (steps : Z)
  | ConfInt (alpha : float).

Inductive event :=
  | ReadModel (district : string) (a : attr)
  | ReadStats (district : string)
  | LogError (district : string)
  | LogWarning (district : string)
  | Append (row : FRow.t).

Record M (A : Type) := Run { trace : list event; outcome : option A }.
Arguments Run {A} _ _.
Arguments trace {A} _.
Arguments outcome {A} _.

#[export] Instance M_ret : MRet M := λ A a, Run [] (Some a).

#[export] Instance M_bind : MBind M := λ A B f m,
  match outcome m with
  | Some a => Run (trace m ++ trace (f a)) (outcome (f a))
  | None => Run (trace m) None
  end.

(** A call into a library, or an indexing, that may raise. *)
Definition call {A} (r : option A) : M A := Run [] r.

Definition emit (e : event) : M unit := Run [e] (Some ()).

(** [try: body except Exception: handler] *)
Definition try_except {A} (body handler : M A) : M A :=
  match outcome body with
  | Some _ => body
  | None => Run (trace body ++ trace handler) (outcome handler)
  end.

(** The value of a computation together with the effects it performed. *)
Definition listen {A} (m : M A) : M (A * list event) :=
  Run (trace m) ((λ a, (a, trace m)) <$> outcome m).

(** [for x in xs: body] *)
Fixpoint for_each {A} (xs : list A) (body : A → M unit) : M unit :=
  match xs with
  | [] => mret ()
  | x :: xs' => body x ;; for_each xs' body
  end.

(** [for x in xs: acc = body(x, acc)] *)
Fixpoint for_fold {A S} (xs : list A) (acc : S) (body : A → S → M S) : M S :=
  match xs with
  | [] => mret acc
  | x :: xs' => acc' ← body x acc; for_fold xs' acc' body
  end.

(** The rows appended so far. *)
Definition appended (tr : list event) : list FRow.t :=
  omap (λ e, match e with Append r => Some r | _ => None end) tr.

Definition read_model {A} (district : string) (a : attr) (v : A) : M A :=
  Run [ReadModel district a] (Some v).

(** [model.get_forecast(steps=...)] *)
Definition model_get_forecast (district : string) (model : Model.t) (steps : Z) : M Forecast.t :=
  Run [ReadModel district (GetForecast steps)] (Model.get_forecast model steps).

(** [forecast_result.conf_int(alpha=...)] *)
Definition forecast_conf_int (district : string) (fr : Forecast.t) (alpha : float)
  : M (list (float * float)) :=
  Run [ReadModel district (ConfInt alpha)] (Forecast.conf_int fr alpha).

(** [self.district_stats.get(district, {})] *)
Definition read_stats (self : ARIMADiagnostics) (district : string) : M Stats.t :=
  Run [ReadStats district] (Some (default Stats.empty (district_stats self !! district))).

(** ** The libraries the engine calls

    The statistical tests and moments (statsmodels, scipy, pandas), the
    two rounding functions (Python's [round] on a [float], numpy's on a
    [float64]), the sort of a data frame by one of its columns and the
    formatting of "now plus k months" are not code of this repository:
    they are the fields of a record the engine is parameterised by. A
    field of type [option] raises when it yields [None]. *)

Module Adf.
Record t := Build {
  statistic : float;
  pvalue : float;
  critical_1pct : float;
  critical_5pct : float
}.
End Adf.

Record Lib := {
  adfuller : list float → option Adf.t;
  acorr_ljungbox : list float → Z → option float;
  shapiro : list float → option (float * float);
  series_mean : list float → float;
  series_std : list float → float;
  series_skew : list float → float;
  series_kurtosis : list float → float;
  acf : list float → Z → option (list float);
  pacf : list float → Z → option (list float);
  py_round : float → Z → float;
  np_round : float → Z → float;
  sort_values : (Row.t → float) → list Row.t → list Row.t;
  strftime_months_ahead : Z → option string
}.

(** [pd.date_range(end=now, periods=n, freq='M')], as month numbers
    relative to the current month: [1-n, ..., 0]. *)
Definition date_range_end (n : Z) : option (list Z) :=
  if n <? 0 then None else Some (seqZ (1 - n) n).

(** [pd.date_range(start=s, periods=n, freq='M')] *)
Definition date_range_start (s n : Z) : option (list Z) :=
  if n <? 0 then None else Some (seqZ s n).

(** [str(order)] for a triple of integers. *)
Definition py_str_order (o : Z * Z * Z) : string :=
  "(" +:+ pretty o.1.1 +:+ ", " +:+ pretty o.1.2 +:+ ", " +:+ pretty o.2 +:+ ")".

(** ** The engine *)

Section Engine.
Context (lib : Lib).

(** [list(self.models.keys())] *)
Definition get_districts (self : ARIMADiagnostics) : list string :=
  (models self).*1.

Definition compute_diagnostics (self : ARIMADiagnostics) (district : string)
  : M (option Diag.t) :=
  match dict_get district (models self) with
  | None => mret None
  | Some model =>
    district_stat ← read_stats self district;
    try_except
      (residuals ← read_model district Resid (Model.resid model);
       adf_result ← call (adfuller lib (dropna residuals));
       lb_pvalue ← call (acorr_ljungbox lib (dropna residuals) 10);
       let resid_clean := dropna residuals in
       shapiro_pvalue ←
         (if (len resid_clean <=? 5000) && (3 <? len resid_clean)
          then r ← call (shapiro lib resid_clean); mret (Some r.2)
          else mret None);
       let resid_mean := series_mean lib residuals in
       let resid_std := series_std lib residuals in
       let resid_skew := series_skew lib residuals in
       let resid_kurt := series_kurtosis lib residuals in
       aic ← read_model district Aic (Model.aic model);
       bic ← read_model district Bic (Model.bic model);
       mret (Some {|
         Diag.district := district;
         Diag.adf_statistic := Adf.statistic adf_result;
         Diag.adf_pvalue := Adf.pvalue adf_result;
         Diag.adf_critical_1pct := Adf.critical_1pct adf_result;
         Diag.adf_critical_5pct := Adf.critical_5pct adf_result;
         Diag.is_stationary := F64.ltb (Adf.pvalue adf_result) F64.c0_05;
         Diag.ljung_box_pvalue := lb_pvalue;
         Diag.no_autocorrelation := F64.ltb F64.c0_05 lb_pvalue;
         Diag.shapiro_pvalue :=
           match shapiro_pvalue with
           | Some p => if F64.truthy p then Some p else None
           | None => None
           end;
         Diag.residual_mean := resid_mean;
         Diag.residual_std := resid_std;
         Diag.residual_skewness := resid_skew;
         Diag.residual_kurtosis := resid_kurt;
         Diag.model_order := default (1, 1, 1) (Stats.order district_stat);
         Diag.aic := aic;
         Diag.bic := bic
       |}))
      (emit (LogError district) ;; mret None)
  end.

Definition compute_metrics (self : ARIMADiagnostics) (district : string)
    (forecast_periods : Z) : M (option Metrics.t) :=
  match dict_get district (models self) with
  | None => mret None
  | Some model =>
    stats_data ← read_stats self district;
    try_except
      (fitted_vals ← read_model district FittedValues (Model.fittedvalues model);
       actual_vals ← read_model district Endog (Model.endog model);
       let n := Z.min (len fitted_vals) (len actual_vals) in
       let fitted_vals := py_slice_from (- n) fitted_vals in
       let actual_vals := py_slice_from (- n) actual_vals in
       nan_mask ← call (np_or (F64.isnan <$> fitted_vals) (F64.isnan <$> actual_vals));
       let valid_mask := negb <$> nan_mask in
       fitted_clean ← call (np_mask_index fitted_vals valid_mask);
       actual_clean ← call (np_mask_index actual_vals valid_mask);
       if len fitted_clean =? 0 then mret None else
       let errors := zip_with F64.sub actual_clean fitted_clean in
       let rmse := F64.sqrt (np_mean ((λ e, F64.mul e e) <$> errors)) in
       let mae := np_mean (F64.abs <$> errors) in
       let nonzero := (λ a, negb (F64.eqb a F64.zero)) <$> actual_clean in
       mape ←
         (if 0 <? np_count nonzero
          then e_nz ← call (np_mask_index errors nonzero);
               a_nz ← call (np_mask_index actual_clean nonzero);
               mret (Some (F64.mul (np_mean (F64.abs <$> zip_with F64.div e_nz a_nz))
                                   F64.c100))
          else mret None);
       let ci_coverage : option float := None in
       aic ← read_model district Aic (Model.aic model);
       bic ← read_model district Bic (Model.bic model);
       mret (Some {|
         Metrics.district := district;
         Metrics.rmse := rmse;
         Metrics.mae := mae;
         Metrics.mape := mape;
         Metrics.aic := aic;
         Metrics.bic := bic;
         Metrics.ci_coverage_95 := ci_coverage;
         Metrics.data_points := default (len actual_clean) (Stats.data_points stats_data);
         Metrics.mean_enrollment := default (np_mean actual_clean) (Stats.mean stats_data);
         Metrics.std_enrollment := default (np_std actual_clean) (Stats.std stats_data)
       |}))
      (emit (LogError district) ;; mret None)
  end.

Definition generate_forecast_plot (self : ARIMADiagnostics) (district : string)
    (forecast_periods : Z) (confidence_level : float) (show_fitted : bool)
  : M (option Fig.t) :=
  match dict_get district (models self) with
  | None => mret None
  | Some model =>
    stats_data ← read_stats self district;
    try_except
      (actual ← read_model district Endog (Model.endog model);
       fitted ← read_model district FittedValues (Model.fittedvalues model);
       let n_actual := len actual in
       hist_dates ← call (date_range_end n_actual);
       forecast_result ← model_get_forecast district model forecast_periods;
       let predictions := Forecast.predicted_mean forecast_result in
       conf_int ← forecast_conf_int district forecast_result
                    (F64.sub F64.c1 confidence_level);
       last_date ← call (py_index hist_dates (-1));
       forecast_dates ← call (date_range_start (last_date + 1) forecast_periods);
       percent ← call (py_int (F64.mul confidence_level F64.c100));
       aic ← read_model district Aic (Model.aic model);
       mret (Some {|
         Fig.title := "Enrollment Forecast: " +:+ district;
         Fig.traces :=
           [Fig.Trace "Historical (Actual)" Fig.Scatter hist_dates actual] ++
           (if show_fitted
            then [Fig.Trace "Fitted Values" Fig.Scatter hist_dates fitted] else []) ++
           [Fig.Trace "Forecast" Fig.Scatter forecast_dates predictions;
            Fig.Trace (pretty percent +:+ "% Confidence Interval") Fig.Scatter
              (forecast_dates ++ reverse forecast_dates)
              (conf_int.*2 ++ reverse conf_int.*1)];
         Fig.hlines := [];
         Fig.annotation := Some (default (1, 1, 1) (Stats.order stats_data), aic)
       |}))
      (emit (LogError district) ;; mret None)
  end.

Definition generate_residual_plots (self : ARIMADiagnostics) (district : string)
  : M (option Fig.t) :=
  match dict_get district (models self) with
  | None => mret None
  | Some model =>
    try_except
      (resid ← read_model district Resid (Model.resid model);
       let residuals := dropna resid in
       let max_lags := Z.min 20 (len residuals / 2 - 1) in
       let max_lags := if max_lags <? 2 then 2 else max_lags in
       acf_values ← call (acf lib residuals max_lags);
       let n := len residuals in
       let conf_bound := F64.div F64.c1_96 (F64.sqrt (F64.of_Z n)) in
       pacf_values ← call (pacf lib residuals max_lags);
       mret (Some {|
         Fig.title := "Residual Diagnostics: " +:+ district;
         Fig.traces :=
           [Fig.Trace "Residuals" Fig.Scatter [] residuals;
            Fig.Trace "Distribution" Fig.Histogram [] residuals;
            Fig.Trace "ACF" Fig.Bar [] acf_values;
            Fig.Trace "PACF" Fig.Bar [] pacf_values];
         Fig.hlines :=
           [F64.zero; conf_bound; F64.opp conf_bound; conf_bound; F64.opp conf_bound];
         Fig.annotation := None
       |}))
      (emit (LogError district) ;; mret None)
  end.

(** [x if v else None] followed by the rounding: the test is Python's
    truthiness of [v], which is false for [None] and for a zero. *)
Definition round_if_truthy (v : option float) (ndigits : Z) : option float :=
  match v with
  | Some x => if F64.truthy x then Some (py_round lib x ndigits) else None
  | None => None
  end.

Definition summary_row (district : string) (diagnostics : Diag.t) (metrics : Metrics.t)
  : Row.t := {|
  Row.District := district;
  Row.RMSE := py_round lib (Metrics.rmse metrics) 1;
  Row.MAE := py_round lib (Metrics.mae metrics) 1;
  Row.MAPE := round_if_truthy (Metrics.mape metrics) 1;
  Row.AIC := py_round lib (Metrics.aic metrics) 1;
  Row.BIC := py_round lib (Metrics.bic metrics) 1;
  Row.ADF_pvalue := py_round lib (Diag.adf_pvalue diagnostics) 4;
  Row.Ljung_Box_pvalue := py_round lib (Diag.ljung_box_pvalue diagnostics) 4;
  Row.CI_Coverage := round_if_truthy (Metrics.ci_coverage_95 metrics) 1;
  Row.Data_Points := Metrics.data_points metrics;
  Row.Order := py_str_order (Diag.model_order diagnostics)
|}.

Definition generate_summary_table (self : ARIMADiagnostics) : M (list Row.t) :=
  rows ← for_fold (get_districts self) [] (λ district rows,
    diagnostics ← compute_diagnostics self district;
    metrics ← compute_metrics self district 6;
    match diagnostics, metrics with
    | Some d, Some m => mret (rows ++ [summary_row district d m])
    | _, _ => mret rows
    end);
  if 0 <? len rows then mret (sort_values lib Row.RMSE rows) else mret rows.

(** One pass of the inner loop of [export_forecasts_csv]: the row of
    step [i] is built and appended to the shared list [rows]. *)
Definition export_row (district : string) (predictions : list float)
    (conf_int : list (float * float)) (i : Z) : M unit :=
  forecast_date ← call (strftime_months_ahead lib (i + 1));
  forecast ← call (py_index predictions i);
  lower ← call (py_index conf_int.*1 i);
  upper ← call (py_index conf_int.*2 i);
  emit (Append {|
    FRow.district := district;
    FRow.date := forecast_date;
    FRow.period := i + 1;
    FRow.forecast := np_round lib forecast 0;
    FRow.lower_ci_95 := np_round lib lower 0;
    FRow.upper_ci_95 := np_round lib upper 0
  |}).

(** The body of the [try] of [export_forecasts_csv] for one district. *)
Definition export_district (district : string) (model : Model.t) (forecast_periods : Z)
  : M unit :=
  forecast_result ← model_get_forecast district model forecast_periods;
  let predictions := Forecast.predicted_mean forecast_result in
  conf_int ← forecast_conf_int district forecast_result F64.c0_05;
  for_each (py_range forecast_periods) (export_row district predictions conf_int).

(** One pass of the outer loop: the district's model, and its [try]. *)
Definition export_step (self : ARIMADiagnostics) (forecast_periods : Z)
    (district : string) : M unit :=
  model ← call (dict_get district (models self));
  try_except
    (export_district district model forecast_periods)
    (emit (LogWarning district)).

(** The rows of forecasts.csv. Each row is appended to the shared list
    as soon as it is built, inside the [try] of its district. *)
Definition export_forecasts_csv (self : ARIMADiagnostics) (forecast_periods : Z)
  : M (list FRow.t) :=
  '(_, effects) ← listen (for_each (get_districts self)
                                  (export_step self forecast_periods));
  mret (appended effects).

End Engine.

(** ** The specification's wording

    The definitions below follow the specification's sentences, not the
    code; the theorems compare the engine with them. *)

(** "the most recent [n] points" *)
Definition trailing {A} (n : nat) (l : list A) : list A := drop (length l - n)%nat l.

(** A (fitted, actual) pair with neither side missing. *)
Definition valid_pair (p : float * float) : Prop :=
  F64.isnan p.1 = false ∧ F64.isnan p.2 = false.

(** "truncate both to their common trailing length; drop positions where
    either side is missing": the valid (fitted, actual) pairs. *)
Definition spec_valid_pairs (fitted actual : list float) : list (float * float) :=
  let n := (length fitted `min` length actual)%nat in
  filter valid_pair (zip (trailing n fitted) (trailing n actual)).

(** A fitted value and an observation that are the same infinity: their
    difference is [inf - inf], NaN. *)
Definition same_infinity (p : float * float) : bool :=
  match p.1, p.2 with
  | S754_infinity s1, S754_infinity s2 => Bool.eqb s1 s2
  | _, _ => false
  end.

(** An array with a NaN in it. *)
Definition has_nan (xs : list float) : Prop := Exists (λ x, x = S754_nan) xs.

(** "errors = actual − fitted elementwise" *)
Definition spec_errors (pairs : list (float * float)) : list float :=
  (λ p, F64.sub p.2 p.1) <$> pairs.

(** "RMSE = sqrt(mean(errors²)); MAE = mean(|errors|)" *)
Definition spec_rmse (pairs : list (float * float)) : float :=
  F64.sqrt (np_mean ((λ e, F64.mul e e) <$> spec_errors pairs)).

Definition spec_mae (pairs : list (float * float)) : float :=
  np_mean (F64.abs <$> spec_errors pairs).

(** "MAPE = mean(|errors/actual|)×100 computed only over positions where
    actual ≠ 0; if no such position exists, MAPE is absent" *)
Definition spec_nonzero_pairs (pairs : list (float * float)) : list (float * float) :=
  filter (λ p, F64.eqb p.2 F64.zero = false) pairs.

Definition spec_mape (pairs : list (float * float)) : option float :=
  match spec_nonzero_pairs pairs with
  | [] => None
  | nz => Some (F64.mul (np_mean ((λ p, F64.abs (F64.div (F64.sub p.2 p.1) p.2)) <$> nz))
                        F64.c100)
  end.

(** "if zero valid pairs remain, return absent"; the training statistics
    fall back to values derived from the cleaned actual series. *)
Definition spec_metrics (district : string) (model : Model.t) (stats : Stats.t)
  : option Metrics.t :=
  match spec_valid_pairs (Model.fittedvalues model) (Model.endog model) with
  | [] => None
  | pairs => Some {|
      Metrics.district := district;
      Metrics.rmse := spec_rmse pairs;
      Metrics.mae := spec_mae pairs;
      Metrics.mape := spec_mape pairs;
      Metrics.aic := Model.aic model;
      Metrics.bic := Model.bic model;
      Metrics.ci_coverage_95 := None;
      Metrics.data_points := default (len pairs) (Stats.data_points stats);
      Metrics.mean_enrollment := default (np_mean pairs.*2) (Stats.mean stats);
      Metrics.std_enrollment := default (np_std pairs.*2) (Stats.std stats)
    |}
  end.

(** A computation "succeeds" when it returns a result: it neither raises
    nor returns absent. *)
Definition succeeds {A} (m : M (option A)) : bool :=
  match outcome m with Some (Some _) => true | _ => false end.

(** "For every region in the repository's region list, attempt 4.2 and
    4.3; include a row only if both succeed": the rows in traversal
    order, before the sort. *)
Definition row_of (lib : Lib) (self : ARIMADiagnostics) (district : string)
  : option Row.t :=
  match outcome (compute_diagnostics lib self district),
        outcome (compute_metrics self district 6) with
  | Some (Some d), Some (Some m) => Some (summary_row lib district d m)
  | _, _ => None
  end.

Definition spec_summary_rows (lib : Lib) (self : ARIMADiagnostics) : list Row.t :=
  omap (row_of lib self) (get_districts self).

Definition both_succeed (lib : Lib) (self : ARIMADiagnostics) (district : string) : bool :=
  succeeds (compute_diagnostics lib self district) &&
  succeeds (compute_metrics self district 6).

(** "computed only when the cleaned sample size is strictly greater than
    3 and at most 5000" *)
Definition shapiro_range (n : Z) : bool := (n <=? 5000) && (3 <? n).

(** The district and period columns of forecasts.csv. *)
Definition district_periods (rows : list FRow.t) : list (string * Z) :=
  (λ r, (FRow.district r, FRow.period r)) <$> rows.

(** A district's export completes when the body of its [try] does not
    raise. *)
Definition export_completes (lib : Lib) (self : ARIMADiagnostics)
    (forecast_periods : Z) (district : string) : bool :=
  match dict_get district (models self) with
  | Some model =>
      if outcome (export_district lib district model forecast_periods) is Some _
      then true else false
  | None => false
  end.

(** No district fails midway: an export that raises has appended no row
    yet. *)
Definition no_partial_export (lib : Lib) (self : ARIMADiagnostics)
    (forecast_periods : Z) : Prop :=
  ∀ district model,
    dict_get district (models self) = Some model →
    outcome (export_district lib district model forecast_periods) = None →
    appended (trace (export_district lib district model forecast_periods)) = [].

(** The districts for which a warning was logged. *)
Definition warned (tr : list event) : list string :=
  omap (λ e, match e with LogWarning d => Some d | _ => None end) tr.

(** The districts for which an error was logged. *)
Definition logged_errors (tr : list event) : list string :=
  omap (λ e, match e with LogError d => Some d | _ => None end) tr.

(** Every event of the computation satisfies [P]. *)
Definition only {A} (P : event → Prop) (m : M A) : Prop := Forall P (trace m).

(** What a caller sees of an operation that guards its body with
    [try: ... except Exception: logger.error(...); return None]: it
    returns, and either no error was logged, or one error was logged,
    for this district, and the result is absent. *)
Definition contained {A} (district : string) (m : M (option A)) : Prop :=
  is_Some (outcome m) ∧
  (logged_errors (trace m) = [] ∨
   logged_errors (trace m) = [district] ∧ outcome m = Some None).

(** Every value the computation can return satisfies [Q]. *)
Definition yields {A} (Q : A → Prop) (m : M A) : Prop :=
  ∀ a, outcome m = Some a → Q a.

(** An event that asks a model for a forecast or for its interval, and
    the others: those that read what describes the fitted series. *)
Definition forecast_read (e : event) : Prop :=
  match e with
  | ReadModel _ (GetForecast _) | ReadModel _ (ConfInt _) => True
  | _ => False
  end.

Definition in_sample (e : event) : Prop := ¬ forecast_read e.

(** ** The contract of the sort

    [DataFrame.sort_values(column)] with its defaults sorts ascending by
    the column, with the missing values (NaN) last, by the "quicksort"
    kind, which is documented as not stable: the contract is a sorted
    permutation, for whatever column the caller names, and nothing
    more. *)

(** The order of the rows by a column. *)
Definition column_le (column : Row.t → float) (a b : Row.t) : Prop :=
  F64.isnan (column b) = true ∨
  (F64.isnan (column a) = false ∧ F64.leb (column a) (column b) = true).




(** A key whose lexicographic order is the order of the floats that are
    not NaN. *)
Definition key (x : float) : Z * Z * Z :=
  match x with
  | S754_nan | S754_zero _ => (0, 0, 0)
  | S754_infinity true => (-2, 0, 0)
  | S754_infinity false => (2, 0, 0)
  | S754_finite false m e => (1, e, Z.pos m)
  | S754_finite true m e => (-1, - e, Z.neg m)
  end.

Definition lex_le (a b : Z * Z * Z) : Prop :=
  a.1.1 < b.1.1 ∨ (a.1.1 = b.1.1 ∧ (a.1.2 < b.1.2 ∨ (a.1.2 = b.1.2 ∧ a.2 <= b.2))).

(** ** A stand-in for the libraries

    Enough of the libraries to run the engine on examples. The rounding
    and the date formatting are reference implementations; there are
    two sorts, a merge sort on the contract's order and the quicksort
    numpy runs for the "quicksort" kind; the statistical tests answer
    fixed values and raise on a series too short to test. *)

Module Standin.

(** The integer nearest to [num/den], ties to even ([0 <= num], [0 < den]). *)
Definition nearest_even (num den : Z) : Z :=
  let q := num / den in
  match 2 * (num mod den) ?= den with
  | Lt => q
  | Gt => q + 1
  | Eq => if Z.even q then q else q + 1
  end.

(** [round(x, ndigits)] for [0 <= ndigits]: the exact value of [x] is
    rounded to [ndigits] decimals, ties to even, and the decimal result
    is converted to the nearest [float64]. NaN, infinities and zeros
    round to themselves. *)
Definition round (x : float) (ndigits : Z) : float :=
  match x with
  | S754_finite s m e =>
      let scale := 10 ^ ndigits in
      let k := if 0 <=? e then Z.pos m * 2 ^ e * scale
               else nearest_even (Z.pos m * scale) (2 ^ (- e)) in
      match k, scale with
      | Z.pos k', Z.pos scale' => F64.div (S754_finite s k' 0) (S754_finite false scale' 0)
      | Z0, Z.pos _ => S754_zero s
      | _, _ => x
      end
  | _ => x
  end.

#[export] Instance column_le_dec column a b : Decision (column_le column a b).
Proof. unfold column_le. apply _. Defined.

(** A stable sort. *)
Definition stable_sort (column : Row.t → float) (rows : list Row.t) : list Row.t :=
  merge_sort (column_le column) rows.

(** The sort pandas runs by default: the rows whose key is missing are
    set aside and put last, and the others are sorted by numpy's
    quicksort, which moves the elements of an array in place. A range of
    more than 17 elements is partitioned around the median of its first,
    middle and last element; a shorter range is sorted by insertion.
    numpy bounds the depth of the partitioning by twice the bit length
    of the array and switches to a heap sort beyond it; the stand-in
    answers [None] there. *)
Section quicksort.
Context {A : Type} (less : A → A → bool).











End quicksort.


(** "Now plus [k] months" as a date string, for a clock that reads
    2026-11-03; nanosecond timestamps end in April 2262, and a date
    beyond that raises. *)
Definition pad2 (n : Z) : string := if n <? 10 then "0" +:+ pretty n else pretty n.

Definition months_ahead (k : Z) : option string :=
  let months := 2026 * 12 + 10 + k in
  let year := months / 12 in
  let month := months mod 12 + 1 in
  if (2262 * 12 + 3) <? months then None
  else Some (pretty year +:+ "-" +:+ pad2 month +:+ "-03").

(** Float literals of the examples. *)
Definition f (z : Z) : float := F64.of_Z z.
Definition half : float := S754_finite false 4503599627370496 (-53).

(** [a/b] *)
Definition ratio (a b : Z) : float := F64.div (f a) (f b).

(** The library, given the p-values of its first two tests, the
    statistic and p-value of its normality test, and its sort. *)
Definition lib (adf_p lb_p : float) (shapiro_wp : float * float)
    (sort : (Row.t → float) → list Row.t → list Row.t) : Lib := {|
  adfuller xs :=
    if len xs <? 4 then None
    else Some (Adf.Build (F64.opp (F64.of_Z 4)) adf_p
                         (F64.opp (F64.of_Z 3)) (F64.opp (F64.of_Z 2)));
  acorr_ljungbox xs lags := if len xs <=? lags then None else Some lb_p;
  shapiro xs := if len xs <? 3 then None else Some shapiro_wp;
  series_mean xs := np_mean (dropna xs);
  series_std xs := np_std (dropna xs);
  series_skew xs := F64.zero;
  series_kurtosis xs := F64.zero;
  acf xs nlags := if len xs <? 2 then None else Some (replicate (Z.to_nat (nlags + 1)) F64.zero);
  pacf xs nlags := if len xs <? 2 then None else Some (replicate (Z.to_nat (nlags + 1)) F64.zero);
  py_round := round;
  np_round := round;
  sort_values := sort;
  strftime_months_ahead := months_ahead
|}.

(** A model whose forecast has exactly [steps] points. *)
Definition flat_forecast (level : float) (steps : Z) : option Forecast.t :=
  if steps <? 0 then None
  else Some {|
    Forecast.predicted_mean := replicate (Z.to_nat steps) level;
    Forecast.conf_int alpha :=
      Some (replicate (Z.to_nat steps) (F64.sub level F64.c1, F64.add level F64.c1))
  |}.

(** A model whose forecast stops after [cap] points, whatever the
    horizon asked for. *)
Definition capped_forecast (level : float) (cap steps : Z) : option Forecast.t :=
  flat_forecast level (Z.min cap steps).

Definition model_with (forecast : Z → option Forecast.t)
    (resid fitted actual : list float) : Model.t := {|
  Model.resid := resid;
  Model.fittedvalues := fitted;
  Model.endog := actual;
  Model.aic := f 100;
  Model.bic := f 110;
  Model.get_forecast := forecast
|}.

Definition model : list float → list float → list float → Model.t :=
  model_with (flat_forecast (f 10)).

Definition repo (ms : list (string * Model.t)) : ARIMADiagnostics :=
  {| models := ms; district_stats := ∅ |}.

(** Twelve residuals, alternating around zero. *)
Definition resid12 : list float :=
  [half; F64.opp half; half; F64.opp half; half; F64.opp half;
   half; F64.opp half; half; F64.opp half; half; F64.opp half].

End Standin.

(** ** Example repositories *)

Module Examples.
Import Standin.

(** The tests answer p = 1/64 (ADF), 1/2 (Ljung-Box), 1/4 (Shapiro-Wilk,
    with statistic 15/16). *)
Definition lib0 : Lib := lib (ratio 1 64) half (ratio 15 16, ratio 1 4) stable_sort.


(** Both p-values sit exactly on the 0.05 threshold. *)
Definition lib_boundary : Lib :=
  lib F64.c0_05 F64.c0_05 (ratio 15 16, ratio 1 4) stable_sort.

(** The Shapiro-Wilk p-value is 0.0: what a routine that computes in
    single precision answers on a few thousand residuals far from normal,
    where the p-value is below the smallest single-precision number. *)
Definition lib_shapiro0 : Lib :=
  lib (ratio 1 64) half (ratio 5 8, F64.zero) stable_sort.

(** Fitted [1, 2] against observations [2, 4, 0]: the last two
    observations, 4 and 0, are the aligned ones. *)
Definition repo_a : ARIMADiagnostics :=
  repo [("A", model resid12 [f 1; f 2] [f 2; f 4; f 0])].

(** A region with 2004 residuals, all of them +0.5 or -0.5. *)
Definition resid2004 : list float := mjoin (replicate 167 resid12).

Definition repo_two_valued : ARIMADiagnostics :=
  repo [("A", model resid2004 [f 1; f 2] [f 2; f 4])].

(** An infinite observation; an infinite observation and fitted value. *)
Definition repo_inf_actual : ARIMADiagnostics :=
  repo [("A", model resid12 [f 1] [F64.inf])].

Definition repo_inf_both : ARIMADiagnostics :=
  repo [("A", model resid12 [F64.inf] [F64.inf])].

(** Two regions with the same errors [1, 2], hence the same RMSE. *)
Definition repo_ties : ARIMADiagnostics :=
  repo [("A", model resid12 [f 1; f 2] [f 2; f 4]);
        ("B", model resid12 [f 3; f 4] [f 4; f 6])].



(** Region A with errors [2, 4], region B with errors [1, 1], and region
    C with three residuals only, on which the stationarity test raises. *)
Definition repo_three : ARIMADiagnostics :=
  repo [("A", model resid12 [f 1; f 2] [f 3; f 6]);
        ("B", model resid12 [f 1; f 2] [f 2; f 3]);
        ("C", model [half; half; half] [f 1] [f 2])].

(** No fitted value, two observations. *)
Definition repo_unfitted : ARIMADiagnostics :=
  repo [("A", model resid12 [] [f 2; f 4])].

(** A perfect fit on non-zero observations: MAPE is 0.0. *)
Definition repo_perfect : ARIMADiagnostics :=
  repo [("A", model resid12 [f 1; f 2] [f 1; f 2])].

(** Region A's forecast has two points whatever the horizon; region B's
    has as many as asked for. *)
Definition repo_short : ARIMADiagnostics :=
  repo [("A", model_with (capped_forecast (f 10) 2) resid12 [f 1; f 2] [f 2; f 4]);
        ("B", model resid12 [f 3; f 4] [f 4; f 6])].

End Examples.

(** * Proofs *)

(** ** The effect monad *)

Section monad.
Context {A B : Type}.
Implicit Types (m : M A) (f : A → M B).

Lemma outcome_bind m f :
  outcome (m ≫= f) = outcome m ≫= λ a, outcome (f a).
Proof. unfold mbind at 1, M_bind. by destruct (outcome m). Qed.

Lemma trace_bind m f :
  trace (m ≫= f) = trace m ++ from_option (λ a, trace (f a)) [] (outcome m).
Proof. unfold mbind, M_bind. destruct (outcome m); simpl; by rewrite ?app_nil_r. Qed.

Lemma outcome_try_except (body handler : M A) :
  outcome (try_except body handler) =
    match outcome body with Some a => Some a | None => outcome handler end.
Proof. unfold try_except. by destruct (outcome body) eqn:E. Qed.

Lemma outcome_bind_Some m f a :
  outcome m = Some a → outcome (m ≫= f) = outcome (f a).
Proof. intros H. by rewrite outcome_bind, H. Qed.

Lemma bind_ret_l (a : A) f : mret a ≫= f = f a.
Proof. unfold mbind, mret, M_bind, M_ret. simpl. by destruct (f a). Qed.

Lemma bind_call_Some (a : A) f : call (Some a) ≫= f = f a.
Proof. unfold mbind, M_bind, call. simpl. by destruct (f a). Qed.
End monad.

(** ** Lengths *)

Lemma len_nonneg {A} (l : list A) : 0 <= len l.
Proof. unfold len. lia. Qed.

(** ** Boolean masks and slices *)

Lemma select_fmap {A B} (g : A → B) (P : A → bool)
    (Q : A → Prop) `{∀ x, Decision (Q x)} ps :
  (∀ p, P p = true ↔ Q p) →
  select (g <$> ps) (P <$> ps) = g <$> filter Q ps.
Proof.
  intros HPQ. induction ps as [|p ps IH]; [done|]. simpl.
  rewrite filter_cons. destruct (P p) eqn:E.
  - rewrite decide_True by by apply HPQ. simpl. by f_equal.
  - rewrite decide_False; [done|]. rewrite <-HPQ. congruence.
Qed.

Lemma zip_with_fmap_same {A B C D} (h : B → C → D) (g1 : A → B) (g2 : A → C) ps :
  zip_with h (g1 <$> ps) (g2 <$> ps) = (λ p, h (g1 p) (g2 p)) <$> ps.
Proof. induction ps; simpl; by f_equal. Qed.

Lemma py_slice_from_neg {A} (n : nat) (l : list A) :
  (0 < n ≤ length l)%nat → py_slice_from (- Z.of_nat n) l = trailing n l.
Proof.
  intros Hn. unfold py_slice_from, trailing, len.
  destruct (Z.ltb_spec (- Z.of_nat n) 0); [|lia].
  f_equal. lia.
Qed.

Lemma py_slice_from_zero {A} (l : list A) : py_slice_from (- 0) l = l.
Proof. unfold py_slice_from. simpl. unfold len. by rewrite Z.min_l by lia. Qed.

Lemma trailing_length {A} (n : nat) (l : list A) :
  (n ≤ length l)%nat → length (trailing n l) = n.
Proof. intros. unfold trailing. rewrite length_drop. lia. Qed.

Lemma trailing_zero {A} (l : list A) : trailing 0 l = [].
Proof. unfold trailing. rewrite Nat.sub_0_r. apply drop_all. Qed.

Lemma np_count_pos {A} (P : A → bool) (Q : A → Prop) `{∀ x, Decision (Q x)} ps :
  (∀ p, P p = true ↔ Q p) →
  (0 <? np_count (P <$> ps)) = bool_decide (filter Q ps ≠ []).
Proof.
  intros HPQ. unfold np_count, len.
  induction ps as [|p ps IH]; [done|]. simpl fmap.
  rewrite !filter_cons. destruct (P p) eqn:E.
  - rewrite decide_True by done. rewrite decide_True by by apply HPQ.
    simpl length. rewrite bool_decide_true by done. apply Z.ltb_lt. lia.
  - rewrite decide_False by congruence. rewrite decide_False; [done|].
    rewrite <-HPQ. congruence.
Qed.

(** ** The metrics follow the specification's steps *)

Lemma np_mask_index_eq {A} (arr : list A) mask :
  len arr = len mask → np_mask_index arr mask = Some (select arr mask).
Proof.
  intros Hlen. unfold np_mask_index. rewrite Hlen, Z.eqb_refl.
  destruct (Z.eqb_spec (len mask) 0) as [Hz|]; [|done].
  destruct mask; [|done]. by destruct arr.
Qed.

Lemma np_mask_index_nil {A} (arr : list A) : np_mask_index arr [] = Some [].
Proof. done. Qed.

Lemma nan_mask_fmap (ps : list (float * float)) :
  negb <$> zip_with orb (F64.isnan <$> ps.*1) (F64.isnan <$> ps.*2)
  = (λ p, negb (F64.isnan p.1 || F64.isnan p.2)) <$> ps.
Proof. induction ps as [|[a b] ps IH]; simpl; by f_equal. Qed.

Lemma valid_pair_spec p :
  negb (F64.isnan p.1 || F64.isnan p.2) = true ↔ valid_pair p.
Proof.
  unfold valid_pair. destruct (F64.isnan p.1), (F64.isnan p.2); simpl; intuition congruence.
Qed.

Lemma nonzero_spec (p : float * float) :
  negb (F64.eqb p.2 F64.zero) = true ↔ F64.eqb p.2 F64.zero = false.
Proof. destruct (F64.eqb p.2 F64.zero); simpl; naive_solver. Qed.

(** The body of [compute_metrics] from the mask on, for arrays that have
    been aligned to equal lengths, written on the list of pairs. *)
Lemma metrics_aligned_outcome (ps : list (float * float)) district aic bic stats :
  let fitted_vals := ps.*1 in
  let actual_vals := ps.*2 in
  let pairs := filter valid_pair ps in
  outcome
    (nan_mask ← call (np_or (F64.isnan <$> fitted_vals) (F64.isnan <$> actual_vals));
     let valid_mask := negb <$> nan_mask in
     fitted_clean ← call (np_mask_index fitted_vals valid_mask);
     actual_clean ← call (np_mask_index actual_vals valid_mask);
     if len fitted_clean =? 0 then mret None else
     let errors := zip_with F64.sub actual_clean fitted_clean in
     let rmse := F64.sqrt (np_mean ((λ e, F64.mul e e) <$> errors)) in
     let mae := np_mean (F64.abs <$> errors) in
     let nonzero := (λ a, negb (F64.eqb a F64.zero)) <$> actual_clean in
     mape ←
       (if 0 <? np_count nonzero
        then e_nz ← call (np_mask_index errors nonzero);
             a_nz ← call (np_mask_index actual_clean nonzero);
             mret (Some (F64.mul (np_mean (F64.abs <$> zip_with F64.div e_nz a_nz))
                                 F64.c100))
        else mret None);
     let ci_coverage : option float := None in
     aic ← read_model district Aic aic;
     bic ← read_model district Bic bic;
     mret (Some {|
       Metrics.district := district;
       Metrics.rmse := rmse;
       Metrics.mae := mae;
       Metrics.mape := mape;
       Metrics.aic := aic;
       Metrics.bic := bic;
       Metrics.ci_coverage_95 := ci_coverage;
       Metrics.data_points := default (len actual_clean) (Stats.data_points stats);
       Metrics.mean_enrollment := default (np_mean actual_clean) (Stats.mean stats);
       Metrics.std_enrollment := default (np_std actual_clean) (Stats.std stats)
     |}))
  = Some match pairs with
         | [] => None
         | _ => Some {|
             Metrics.district := district;
             Metrics.rmse := spec_rmse pairs;
             Metrics.mae := spec_mae pairs;
             Metrics.mape := spec_mape pairs;
             Metrics.aic := aic;
             Metrics.bic := bic;
             Metrics.ci_coverage_95 := None;
             Metrics.data_points := default (len pairs) (Stats.data_points stats);
             Metrics.mean_enrollment := default (np_mean pairs.*2) (Stats.mean stats);
             Metrics.std_enrollment := default (np_std pairs.*2) (Stats.std stats)
           |}
         end.
Proof.
  intros fitted_vals actual_vals pairs.
  unfold np_or. subst fitted_vals actual_vals.
  assert (len (F64.isnan <$> ps.*1) = len (F64.isnan <$> ps.*2)) as ->
    by (unfold len; by rewrite !length_fmap).
  rewrite Z.eqb_refl, bind_call_Some. cbv zeta.
  rewrite nan_mask_fmap.
  rewrite !np_mask_index_eq by (unfold len; by rewrite !length_fmap).
  rewrite !bind_call_Some.
  rewrite !(select_fmap _ _ valid_pair) by apply valid_pair_spec.
  fold pairs.
  destruct pairs as [|p0 pairs'] eqn:Epairs; [done|].
  rewrite <-Epairs. 
  assert ((len pairs.*1 =? 0) = false) as ->.
  { rewrite Epairs. unfold len. simpl. lia. }
  rewrite zip_with_fmap_same.
  cbv zeta. rewrite <-!list_fmap_compose.
  rewrite (np_count_pos _ (λ p, F64.eqb p.2 F64.zero = false)) by apply nonzero_spec.
  rewrite !np_mask_index_eq by (unfold len; by rewrite !length_fmap).
  rewrite !bind_call_Some.
  rewrite !(select_fmap _ _ (λ p, F64.eqb p.2 F64.zero = false)) by apply nonzero_spec.
  rewrite zip_with_fmap_same, <-list_fmap_compose.
  assert ((if bool_decide (filter (λ p : float * float, F64.eqb p.2 F64.zero = false) pairs ≠ [])
           then mret (Some (F64.mul (np_mean (F64.abs ∘ (λ p : float * float,
                  F64.div (F64.sub p.2 p.1) p.2) <$>
                  filter (λ p : float * float, F64.eqb p.2 F64.zero = false) pairs)) F64.c100))
           else mret None) = (mret (spec_mape pairs) : M (option float))) as ->.
  { unfold spec_mape, spec_nonzero_pairs.
    destruct (filter _ pairs) eqn:E; [by rewrite bool_decide_false by naive_solver|].
    by rewrite bool_decide_true by done. }
  rewrite bind_ret_l. unfold read_model, mbind, M_bind, mret, M_ret. simpl.
  unfold spec_rmse, spec_mae, spec_errors.
  rewrite <-!list_fmap_compose.
  unfold len. by rewrite length_fmap.
Qed.


Lemma zip_trailing_fst {A B} (n : nat) (F : list A) (G : list B) :
  (n ≤ length F)%nat → (n ≤ length G)%nat →
  (zip (trailing n F) (trailing n G)).*1 = trailing n F ∧
  (zip (trailing n F) (trailing n G)).*2 = trailing n G.
Proof.
  intros HF HG. split.
  - apply fst_zip. rewrite !trailing_length; lia.
  - apply snd_zip. rewrite !trailing_length; lia.
Qed.

Lemma np_or_nil_l b mask : np_or [] b = Some mask → mask = [].
Proof. unfold np_or. repeat case_match; naive_solver. Qed.

Lemma np_or_nil_r a mask : np_or a [] = Some mask → mask = [].
Proof.
  unfold np_or. repeat case_match; intros [= <-]; try done; by destruct a.
Qed.

Lemma compute_metrics_outcome self district fp model :
  dict_get district (models self) = Some model →
  outcome (compute_metrics self district fp) =
    Some (spec_metrics district model
            (default Stats.empty (district_stats self !! district))).
Proof.
  intros Hm. unfold compute_metrics. rewrite Hm.
  set (stats := default Stats.empty _).
  rewrite (outcome_bind_Some _ _ stats) by done.
  rewrite outcome_try_except.
  rewrite (outcome_bind_Some _ _ (Model.fittedvalues model)) by done.
  rewrite (outcome_bind_Some _ _ (Model.endog model)) by done.
  cbv beta zeta.
  set (F := Model.fittedvalues model). set (E := Model.endog model).
  unfold spec_metrics, spec_valid_pairs. fold F E.
  destruct (decide (length F `min` length E = 0)%nat) as [Hz|Hnz].
  - (* one side is empty: the slices keep whole arrays *)
    replace (Z.min (len F) (len E)) with 0 by (unfold len; lia).
    rewrite !py_slice_from_zero, Hz, !trailing_zero.
    destruct F as [|x F'], E as [|y E']; try done; simpl in Hz; try lia.
    + destruct (np_or (F64.isnan <$> []) (F64.isnan <$> y :: E')) as [mask|] eqn:Hor; [|done].
      apply np_or_nil_l in Hor as ->.
      rewrite bind_call_Some. simpl fmap.
      by rewrite !np_mask_index_nil, !bind_call_Some.
    + destruct (np_or (F64.isnan <$> x :: F') (F64.isnan <$> [])) as [mask|] eqn:Hor; [|done].
      apply np_or_nil_r in Hor as ->.
      rewrite bind_call_Some. simpl fmap.
      by rewrite !np_mask_index_nil, !bind_call_Some.
  - set (n := (length F `min` length E)%nat) in *.
    replace (Z.min (len F) (len E)) with (Z.of_nat n) by (unfold len; lia).
    rewrite !py_slice_from_neg by lia.
    destruct (zip_trailing_fst n F E) as [H1 H2]; [lia..|].
    pose proof (metrics_aligned_outcome (zip (trailing n F) (trailing n E)) district
                  (Model.aic model) (Model.bic model) stats) as HH.
    cbv zeta in HH. rewrite H1, H2 in HH. rewrite HH.
    fold valid_pair. by destruct (filter valid_pair _).
Qed.

(** ** Rounding keeps the sign *)

Section rounding.
Context (prec emax : Z).

Lemma shr_1_nonneg mrs : 0 <= shr_m mrs → 0 <= shr_m (shr_1 mrs).
Proof. destruct mrs as [[|p|p] r s]; simpl; try lia; destruct p; simpl; lia. Qed.

Lemma iter_shr_1_nonneg p mrs :
  0 <= shr_m mrs → 0 <= shr_m (SpecFloat.iter_pos shr_1 p mrs).
Proof.
  revert mrs. induction p as [p IH|p IH|]; intros mrs H; simpl.
  - apply IH, IH, shr_1_nonneg, H.
  - apply IH, IH, H.
  - apply shr_1_nonneg, H.
Qed.

Lemma shr_record_of_loc_m m l : shr_m (shr_record_of_loc m l) = m.
Proof. by destruct l as [|[]]. Qed.

Lemma shr_fexp_nonneg m e l :
  0 <= m → 0 <= shr_m (shr_fexp prec emax m e l).1.
Proof.
  intros H. unfold shr_fexp, shr.
  destruct (fexp prec emax (Zdigits2 m + e) - e) as [|p|p]; simpl;
    rewrite ?shr_record_of_loc_m; try done.
  apply iter_shr_1_nonneg. by rewrite shr_record_of_loc_m.
Qed.

Lemma round_nearest_even_nonneg m l : 0 <= m → 0 <= round_nearest_even m l.
Proof. intros H. destruct l as [|[]]; simpl; try done; [destruct (Z.even m)|]; lia. Qed.

Lemma binary_round_aux_signed s m e l :
  0 <= m → signed s (binary_round_aux prec emax s m e l).
Proof.
  intros H. unfold binary_round_aux.
  pose proof (shr_fexp_nonneg m e l H) as H1.
  destruct (shr_fexp prec emax m e l) as [mrs' e']. simpl in H1.
  pose proof (shr_fexp_nonneg _ e' loc_Exact
                (round_nearest_even_nonneg _ (loc_of_shr_record mrs') H1)) as H2.
  destruct (shr_fexp prec emax (round_nearest_even _ _) e' loc_Exact) as [mrs'' e''].
  simpl in H2. destruct (shr_m mrs'') as [|p|p]; simpl; [done| |lia].
  by destruct (e'' <=? emax - prec).
Qed.

Lemma binary_round_signed s m e : signed s (binary_round prec emax s m e).
Proof.
  unfold binary_round. destruct (shl_align _ _ _) as [mz ez].
  apply binary_round_aux_signed. lia.
Qed.

Lemma binary_normalize_pos m e : 0 <= m → pos (binary_normalize prec emax m e false).
Proof.
  intros H. destruct m as [|p|p]; simpl; [done|apply binary_round_signed|lia].
Qed.

Lemma binary_normalize_not_nan m e sz : binary_normalize prec emax m e sz ≠ S754_nan.
Proof.
  destruct m as [|p|p]; simpl; [done| |].
  - pose proof (binary_round_signed false p e) as H. intros E. by rewrite E in H.
  - pose proof (binary_round_signed true p e) as H. intros E. by rewrite E in H.
Qed.

Lemma SFadd_pos x y : pos x → pos y → pos (SFadd prec emax x y).
Proof.
  destruct x as [sx|sx| |sx mx ex], y as [sy|sy| |sy my ey]; simpl; try done;
    intros -> ->; try done.
  apply binary_normalize_pos. simpl. lia.
Qed.

Lemma SFmul_self_pos x : x ≠ S754_nan → pos (SFmul prec emax x x).
Proof.
  destruct x as [s|s| |s m e]; simpl; try done; intros _;
    try (by destruct s).
  replace (xorb s s) with false by by destruct s.
  apply binary_round_aux_signed. lia.
Qed.

Lemma SFmul_pos_finite x m e :
  pos x → pos (SFmul prec emax x (S754_finite false m e)).
Proof.
  destruct x as [sx|sx| |sx mx ex]; simpl; try done; intros ->; try done.
  apply binary_round_aux_signed. lia.
Qed.

Lemma SFdiv_core_nonneg m1 e1 m2 e2 :
  0 <= (SFdiv_core_binary prec emax (Z.pos m1) e1 (Z.pos m2) e2).1.1.
Proof.
  unfold SFdiv_core_binary.
  set (s := _ - _ - _).
  set (m' := match s with Z.pos _ => _ | _ => _ end).
  assert (0 <= m') as Hm'.
  { subst m'. destruct s; try lia. apply Z.shiftl_nonneg. lia. }
  pose proof (Z.div_pos m' (Z.pos m2) Hm' eq_refl) as Hd.
  unfold Z.div in Hd. by destruct (Z.div_eucl m' (Z.pos m2)).
Qed.

Lemma SFdiv_pos x y : pos x → pos y → npos (SFdiv prec emax x y).
Proof.
  destruct x as [sx|sx| |sx mx ex], y as [sy|sy| |sy my ey]; simpl; try done;
    intros -> ->; try (by left); try (by right).
  right. pose proof (SFdiv_core_nonneg mx ex my ey) as H.
  destruct (SFdiv_core_binary _ _ _ _ _ _) as [[mz ez] lz].
  by apply binary_round_aux_signed.
Qed.

Lemma SFdiv_pos_finite x m e :
  pos x → pos (SFdiv prec emax x (S754_finite false m e)).
Proof.
  destruct x as [sx|sx| |sx mx ex]; simpl; try done; intros ->; try done.
  pose proof (SFdiv_core_nonneg mx ex m e) as H.
  destruct (SFdiv_core_binary _ _ _ _ _ _) as [[mz ez] lz].
  by apply binary_round_aux_signed.
Qed.

Lemma SFdiv_finite_not_nan x s m e :
  x ≠ S754_nan → SFdiv prec emax x (S754_finite s m e) ≠ S754_nan.
Proof.
  destruct x as [sx|sx| |sx mx ex]; simpl; try done; intros _.
  pose proof (SFdiv_core_nonneg mx ex m e) as H.
  destruct (SFdiv_core_binary _ _ _ _ _ _) as [[mz ez] lz].
  pose proof (binary_round_aux_signed (xorb sx s) mz ez lz H) as H'.
  intros E. by rewrite E in H'.
Qed.

Lemma SFsqrt_core_nonneg m e : 0 <= (SFsqrt_core_binary prec emax (Z.pos m) e).1.1.
Proof.
  unfold SFsqrt_core_binary.
  set (m' := match _ - _ with Z.pos _ => _ | _ => _ end).
  pose proof (Z.sqrtrem_sqrt m') as Hs. pose proof (Z.sqrt_nonneg m') as Hn.
  destruct (Z.sqrtrem m') as [q r]. simpl in *. lia.
Qed.

Lemma SFsqrt_pos x : pos x → pos (SFsqrt prec emax x).
Proof.
  destruct x as [s|s| |s m e]; simpl; try done; intros ->; try done.
  pose proof (SFsqrt_core_nonneg m e) as H.
  destruct (SFsqrt_core_binary _ _ _ _) as [[mz ez] lz].
  by apply binary_round_aux_signed.
Qed.

Lemma SFsub_finite_not_nan x y :
  F64.is_finite x = true → F64.is_finite y = true → SFsub prec emax x y ≠ S754_nan.
Proof.
  destruct x as [sx|sx| |sx mx ex], y as [sy|sy| |sy my ey]; simpl; try done; intros _ _.
  - by destruct sx, sy.
  - apply binary_normalize_not_nan.
Qed.

Lemma SFabs_pos x : x ≠ S754_nan → pos (SFabs x).
Proof. by destruct x. Qed.

End rounding.

(** ** Lengths as floats *)

Lemma digits2_pos_iter_xO p k :
  digits2_pos (Pos.iter xO p k) = (digits2_pos p + k)%positive.
Proof.
  induction k as [|k IH] using Pos.peano_ind.
  - simpl. lia.
  - rewrite Pos.iter_succ. simpl. rewrite IH. lia.
Qed.

Lemma digits2_pos_lower p : 2 ^ (Z.pos (digits2_pos p) - 1) <= Z.pos p.
Proof.
  induction p as [p IH|p IH|]; simpl digits2_pos; [| |done].
  - rewrite Pos2Z.inj_succ. replace (Z.succ (Z.pos (digits2_pos p)) - 1)
      with (Z.succ (Z.pos (digits2_pos p) - 1)) by lia.
    rewrite Z.pow_succ_r by lia. lia.
  - rewrite Pos2Z.inj_succ. replace (Z.succ (Z.pos (digits2_pos p)) - 1)
      with (Z.succ (Z.pos (digits2_pos p) - 1)) by lia.
    rewrite Z.pow_succ_r by lia. lia.
Qed.

Lemma digits2_pos_bound p : Z.pos p < 2 ^ 53 → Z.pos (digits2_pos p) <= 53.
Proof.
  intros H. destruct (Z.le_gt_cases (Z.pos (digits2_pos p)) 53) as [|Hgt]; [done|].
  pose proof (digits2_pos_lower p) as Hl.
  assert (2 ^ 53 <= 2 ^ (Z.pos (digits2_pos p) - 1)) by (apply Z.pow_le_mono_r; lia).
  lia.
Qed.

Lemma binary_round_aux_exact s m e :
  Z.pos (digits2_pos m) = 53 → -1074 <= e <= 971 →
  binary_round_aux 53 1024 s (Z.pos m) e loc_Exact = S754_finite s m e.
Proof.
  intros Hd He. unfold binary_round_aux, shr_fexp. simpl Zdigits2. rewrite Hd.
  assert (fexp 53 1024 (53 + e) - e = 0) as -> by (unfold fexp, emin; lia).
  simpl. rewrite Hd.
  assert (fexp 53 1024 (53 + e) - e = 0) as -> by (unfold fexp, emin; lia).
  simpl. destruct (Z.leb_spec e (1024 - 53)); [done|lia].
Qed.

Lemma of_Z_finite n :
  0 < n < 2 ^ 53 → ∃ m e, F64.of_Z n = S754_finite false m e.
Proof.
  intros [Hpos Hlt]. destruct n as [|p|p]; try lia.
  pose proof (digits2_pos_bound p Hlt) as Hd.
  unfold F64.of_Z, binary_normalize, binary_round, shl_align.
  assert (fexp F64.prec F64.emax (Z.pos (digits2_pos p) + 0) = Z.pos (digits2_pos p) - 53)
    as -> by (unfold fexp, emin, F64.prec, F64.emax; lia).
  destruct (Z.pos (digits2_pos p) - 53 - 0) as [|d|d] eqn:E; [|lia|].
  - eexists _, _. apply binary_round_aux_exact; lia.
  - eexists _, _. apply binary_round_aux_exact; [|lia].
    rewrite digits2_pos_iter_xO. lia.
Qed.

Lemma of_Z_pos n : 0 <= n → pos (F64.of_Z n).
Proof. apply binary_normalize_pos. Qed.

(** ** Sums and means *)

(** A property of floats that the addition keeps holds for the sum of an
    array all of whose elements have it. *)
Section np_sum_closed.
Context (P : float → Prop).
Context (P_zero : P F64.zero) (P_add : ∀ x y, P x → P y → P (F64.add x y)).

Lemma sum_from_closed acc xs : P acc → Forall P xs → P (sum_from acc xs).
Proof using P_add.
  unfold sum_from. revert acc. induction xs as [|x xs IH]; intros acc Hacc Hxs; [done|].
  inversion_clear Hxs. simpl. apply IH; [|done]. by apply P_add.
Qed.

Lemma sum_groups_closed groups r xs :
  Forall P r → Forall P xs →
  Forall P (sum_groups groups r xs).1 ∧ Forall P (sum_groups groups r xs).2.
Proof using P_add.
  revert r xs. induction groups as [|groups IH]; intros r xs Hr Hxs; [done|].
  simpl. apply IH; [|by apply Forall_drop].
  assert (Forall P (take 8 xs)) as Hys by by apply Forall_take.
  revert Hys. generalize (take 8 xs). clear Hxs.
  induction Hr as [|x r Hx Hr IHr]; intros ys Hys; [constructor|].
  destruct Hys as [|y ys Hy Hys]; [constructor|].
  simpl. constructor; [by apply P_add|by apply IHr].
Qed.

Lemma sum_block_closed xs : Forall P xs → P (sum_block xs).
Proof using P_zero P_add.
  intros Hxs. unfold sum_block.
  destruct (sum_groups_closed (length xs / 8 - 1) (take 8 xs) (drop 8 xs)) as [Hr Hrest];
    [by apply Forall_take|by apply Forall_drop|].
  destruct (sum_groups _ _ _) as [r rest]. simpl in Hr, Hrest.
  assert (P (sum_from F64.zero xs)) as Hdefault by by apply sum_from_closed.
  do 8 (destruct r as [|? r]; [done|]). destruct r as [|? r]; [|done].
  apply sum_from_closed; [|done].
  repeat match goal with H : Forall P (_ :: _) |- _ => inversion_clear H end.
  by repeat apply P_add.
Qed.

Lemma pairwise_sum_closed fuel xs : Forall P xs → P (pairwise_sum fuel xs).
Proof using P_zero P_add.
  revert xs. induction fuel as [|fuel IH]; intros xs Hxs; simpl.
  - destruct (_ <? 8)%nat; [by apply sum_from_closed|].
    destruct (_ <=? 128)%nat; by apply sum_block_closed.
  - destruct (_ <? 8)%nat; [by apply sum_from_closed|].
    destruct (_ <=? 128)%nat; [by apply sum_block_closed|].
    apply P_add; apply IH; [by apply Forall_take|by apply Forall_drop].
Qed.

Lemma np_sum_closed xs : Forall P xs → P (np_sum xs).
Proof using P_zero P_add.
  intros Hxs. unfold np_sum. apply P_add; [done|]. by apply pairwise_sum_closed.
Qed.

End np_sum_closed.

Lemma np_sum_pos xs : Forall pos xs → pos (np_sum xs).
Proof. apply np_sum_closed; [done|]. intros x y. apply SFadd_pos. Qed.

Lemma SFadd_npos x y : npos x → npos y → npos (F64.add x y).
Proof.
  intros [->|Hx] [->|Hy]; [by left|by left|left; by destruct x|].
  right. by apply SFadd_pos.
Qed.

Lemma np_sum_npos xs : Forall npos xs → npos (np_sum xs).
Proof. apply np_sum_closed; [by right|apply SFadd_npos]. Qed.

Lemma np_mean_npos xs : Forall npos xs → npos (np_mean xs).
Proof.
  intros H. unfold np_mean. destruct (np_sum_npos xs H) as [->|Hs]; [by left|].
  apply SFdiv_pos; [done|]. apply of_Z_pos, len_nonneg.
Qed.

Lemma np_mean_pos xs : Forall pos xs → 0 < len xs < 2 ^ 53 → pos (np_mean xs).
Proof.
  intros H Hlen. unfold np_mean.
  destruct (of_Z_finite _ Hlen) as (m & e & ->).
  apply SFdiv_pos_finite. by apply np_sum_pos.
Qed.

(** ** The sign of RMSE, MAE and MAPE *)

Lemma lt0_npos x : npos x → F64.lt0 x = false.
Proof. intros [->|H]; [done|]. destruct x as [s|s| |s m e]; try done; by rewrite H. Qed.

Lemma ge0_pos x : pos x → F64.ge0 x = true.
Proof. intros H. destruct x as [s|s| |s m e]; try done; by rewrite H. Qed.

Lemma isnan_pos x : pos x → F64.isnan x = false.
Proof. by destruct x. Qed.

Lemma nan_or_not (x : float) : x = S754_nan ∨ x ≠ S754_nan.
Proof. destruct x; naive_solver. Qed.

Lemma SFsqrt_npos x : npos x → npos (F64.sqrt x).
Proof. intros [->|H]; [by left|right]. by apply SFsqrt_pos. Qed.

Lemma mul_self_npos x : npos (F64.mul x x).
Proof.
  destruct (nan_or_not x) as [->|H]; [by left|right]. by apply SFmul_self_pos.
Qed.

Lemma abs_npos x : npos (F64.abs x).
Proof.
  destruct (nan_or_not x) as [->|H]; [by left|right]. by apply SFabs_pos.
Qed.

(** RMSE and MAE are never negative. *)
Lemma spec_rmse_npos pairs : npos (spec_rmse pairs).
Proof.
  unfold spec_rmse. apply SFsqrt_npos, np_mean_npos.
  apply Forall_fmap, Forall_forall. intros e _. apply mul_self_npos.
Qed.

Lemma spec_mae_npos pairs : npos (spec_mae pairs).
Proof.
  unfold spec_mae. apply np_mean_npos.
  apply Forall_fmap, Forall_forall. intros e _. apply abs_npos.
Qed.

(** ** NaN in a sum *)

Lemma add_nan_l y : F64.add S754_nan y = S754_nan.
Proof. done. Qed.

Lemma add_nan_r x : F64.add x S754_nan = S754_nan.
Proof. by destruct x. Qed.

Lemma sum_from_nan_acc xs : sum_from S754_nan xs = S754_nan.
Proof. unfold sum_from. induction xs as [|x xs IH]; [done|]. simpl. by rewrite IH. Qed.

Lemma sum_from_nan acc xs : has_nan xs → sum_from acc xs = S754_nan.
Proof.
  unfold has_nan. intros H. revert acc.
  induction H as [x xs ->|x xs _ IH]; intros acc.
  - unfold sum_from. simpl. rewrite add_nan_r. apply sum_from_nan_acc.
  - apply IH.
Qed.

Lemma zip_with_add_nan r ys :
  length r = length ys → has_nan r ∨ has_nan ys → has_nan (zip_with F64.add r ys).
Proof.
  unfold has_nan. revert ys. induction r as [|x r IH]; intros [|y ys] Hlen H; try done.
  - destruct H as [H|H]; inversion H.
  - simpl in *. rewrite !Exists_cons in H. rewrite Exists_cons.
    destruct H as [[->|H]|[->|H]].
    + by left.
    + right. apply IH; [lia|by left].
    + left. apply add_nan_r.
    + right. apply IH; [lia|by right].
Qed.

Lemma has_nan_take_drop n xs : has_nan xs → has_nan (take n xs) ∨ has_nan (drop n xs).
Proof.
  unfold has_nan. intros H. rewrite <-(take_drop n xs) in H.
  by apply Exists_app in H.
Qed.

Lemma sum_groups_nan groups r xs :
  length r = 8%nat → (8 * groups <= length xs)%nat →
  has_nan r ∨ has_nan xs →
  length (sum_groups groups r xs).1 = 8%nat ∧
  (has_nan (sum_groups groups r xs).1 ∨ has_nan (sum_groups groups r xs).2).
Proof.
  revert r xs. induction groups as [|groups IH]; intros r xs Hr Hxs H; [done|].
  simpl. apply IH.
  - rewrite length_zip_with, length_take. lia.
  - rewrite length_drop. lia.
  - destruct H as [H|H].
    + left. apply zip_with_add_nan; [rewrite length_take; lia|by left].
    + destruct (has_nan_take_drop 8 xs H) as [H'|H']; [|by right].
      left. apply zip_with_add_nan; [rewrite length_take; lia|by right].
Qed.

Lemma sum_block_nan xs : has_nan xs → sum_block xs = S754_nan.
Proof.
  intros H. unfold sum_block.
  assert (sum_from F64.zero xs = S754_nan) as Hdefault by by apply sum_from_nan.
  destruct (decide (length xs < 8)%nat) as [Hlt|Hge].
  - rewrite Nat.div_small by done. simpl.
    rewrite take_ge by lia.
    do 8 (destruct xs as [|? xs]; [done|]). simpl in Hlt. lia.
  - destruct (sum_groups_nan (length xs / 8 - 1) (take 8 xs) (drop 8 xs)) as [Hlen Hnan].
    + rewrite length_take. lia.
    + rewrite length_drop. pose proof (Nat.Div0.mul_div_le (length xs) 8). lia.
    + destruct (has_nan_take_drop 8 xs H); [by left|by right].
    + destruct (sum_groups _ _ _) as [r rest]. simpl in Hlen, Hnan.
      do 8 (destruct r as [|? r]; [done|]). destruct r as [|? r]; [|done].
      destruct Hnan as [Hnan|Hnan]; [|by apply sum_from_nan].
      unfold has_nan in Hnan. rewrite !Exists_cons, Exists_nil in Hnan.
      destruct Hnan as [->|[->|[->|[->|[->|[->|[->|[->|[]]]]]]]]];
        rewrite ?add_nan_l, ?add_nan_r, ?add_nan_l, ?add_nan_r, ?add_nan_l;
        apply sum_from_nan_acc.
Qed.

Lemma pairwise_sum_nan fuel xs : has_nan xs → pairwise_sum fuel xs = S754_nan.
Proof.
  revert xs. induction fuel as [|fuel IH]; intros xs H; simpl.
  - destruct (_ <? 8)%nat; [by apply sum_from_nan|].
    destruct (_ <=? 128)%nat; by apply sum_block_nan.
  - destruct (_ <? 8)%nat; [by apply sum_from_nan|].
    destruct (_ <=? 128)%nat; [by apply sum_block_nan|].
    match goal with |- F64.add (pairwise_sum _ (take ?n _)) _ = _ =>
      destruct (has_nan_take_drop n xs H) as [H'|H'] end.
    + by rewrite (IH _ H').
    + by rewrite (IH _ H'), add_nan_r.
Qed.

Lemma np_sum_nan xs : has_nan xs → np_sum xs = S754_nan.
Proof. intros H. unfold np_sum. by rewrite pairwise_sum_nan. Qed.

Lemma np_mean_nan xs : has_nan xs → np_mean xs = S754_nan.
Proof. intros H. unfold np_mean. by rewrite np_sum_nan. Qed.

(** ** When the metrics are NaN *)

Lemma spec_valid_pairs_valid fitted actual :
  Forall valid_pair (spec_valid_pairs fitted actual).
Proof.
  unfold spec_valid_pairs. apply Forall_forall. by intros p [Hp _]%list_elem_of_filter.
Qed.

(** The error [actual - fitted] of a valid pair is NaN exactly when both
    are the same infinity. *)
Lemma error_nan_iff p :
  valid_pair p → F64.sub p.2 p.1 = S754_nan ↔ same_infinity p = true.
Proof.
  destruct p as [f a]. unfold valid_pair, same_infinity. simpl. intros [Hf Ha].
  destruct a as [sa|sa| |sa ma ea], f as [sf|sf| |sf mf ef]; try done; cbn;
    try (by destruct sa, sf);
    (split; [|done]); intros H; by destruct (binary_normalize_not_nan _ _ _ _ _ H).
Qed.

Lemma spec_errors_not_nan pairs :
  Forall valid_pair pairs → Forall (λ p, same_infinity p = false) pairs →
  Forall (λ e, e ≠ S754_nan) (spec_errors pairs).
Proof.
  intros Hv Hs. unfold spec_errors. apply Forall_fmap, Forall_forall. intros p Hin.
  rewrite Forall_forall in Hv, Hs. simpl. rewrite error_nan_iff by by apply Hv.
  by rewrite (Hs p Hin).
Qed.

Lemma spec_errors_nan pairs :
  Forall valid_pair pairs → Exists (λ p, same_infinity p = true) pairs →
  has_nan (spec_errors pairs).
Proof.
  intros Hv Hs. unfold spec_errors, has_nan. apply Exists_fmap.
  rewrite Forall_forall in Hv. apply Exists_exists in Hs as (p & Hin & Hp).
  apply Exists_exists. exists p. split; [done|]. simpl. apply error_nan_iff; [by apply Hv|done].
Qed.

Lemma not_Forall_same_infinity pairs :
  ¬ Forall (λ p, same_infinity p = false) pairs → Exists (λ p, same_infinity p = true) pairs.
Proof.
  intros H. apply not_Forall_Exists in H; [|apply _].
  eapply Exists_impl; [done|]. intros p Hp. simpl in Hp. by destruct (same_infinity p).
Qed.

Lemma spec_rmse_ge0 pairs :
  Forall valid_pair pairs → 0 < len pairs < 2 ^ 53 →
  F64.ge0 (spec_rmse pairs) = true ↔ Forall (λ p, same_infinity p = false) pairs.
Proof.
  intros Hv Hlen. split.
  - intros Hge. destruct (decide (Forall (λ p, same_infinity p = false) pairs)) as [|Hn]; [done|].
    apply not_Forall_same_infinity, (spec_errors_nan _ Hv) in Hn.
    unfold spec_rmse in Hge. rewrite np_mean_nan in Hge; [done|].
    unfold has_nan in *. apply Exists_fmap. eapply Exists_impl; [done|]. by intros e ->.
  - intros Hs. apply ge0_pos. unfold spec_rmse. apply SFsqrt_pos, np_mean_pos.
    + apply Forall_fmap. eapply Forall_impl; [by apply spec_errors_not_nan|].
      intros e He. simpl. by apply SFmul_self_pos.
    + unfold len, spec_errors. by rewrite !length_fmap.
Qed.

Lemma spec_mae_ge0 pairs :
  Forall valid_pair pairs → 0 < len pairs < 2 ^ 53 →
  F64.ge0 (spec_mae pairs) = true ↔ Forall (λ p, same_infinity p = false) pairs.
Proof.
  intros Hv Hlen. split.
  - intros Hge. destruct (decide (Forall (λ p, same_infinity p = false) pairs)) as [|Hn]; [done|].
    apply not_Forall_same_infinity, (spec_errors_nan _ Hv) in Hn.
    unfold spec_mae in Hge. rewrite np_mean_nan in Hge; [done|].
    unfold has_nan in *. apply Exists_fmap. eapply Exists_impl; [done|]. by intros e ->.
  - intros Hs. apply ge0_pos. unfold spec_mae. apply np_mean_pos.
    + apply Forall_fmap. eapply Forall_impl; [by apply spec_errors_not_nan|].
      intros e He. simpl. by apply SFabs_pos.
    + unfold len, spec_errors. by rewrite !length_fmap.
Qed.

(** The term [|(actual - fitted) / actual|] of a valid pair with a
    non-zero observation is NaN exactly when the observation is
    infinite. *)
Lemma ratio_nan_iff p :
  valid_pair p → F64.eqb p.2 F64.zero = false →
  F64.abs (F64.div (F64.sub p.2 p.1) p.2) = S754_nan ↔ F64.no_inf p.2 = false.
Proof.
  destruct p as [f a]. unfold valid_pair. simpl. intros [Hf Ha] Hnz.
  destruct a as [sa|sa| |sa ma ea]; try done.
  - split; [done|]. intros _.
    destruct f as [sf|sf| |sf mf ef]; try done; cbn; by destruct sa, sf.
  - split; [|done]. intros H. exfalso.
    assert (F64.sub (S754_finite sa ma ea) f ≠ S754_nan) as Hsub.
    { destruct f as [sf|sf| |sf mf ef]; try done. apply binary_normalize_not_nan. }
    pose proof (SFdiv_finite_not_nan F64.prec F64.emax _ sa ma ea Hsub) as Hdiv.
    unfold F64.abs, F64.div in H. by destruct (SFdiv _ _ _ _).
Qed.

Lemma spec_mape_Some pairs v :
  spec_mape pairs = Some v →
  spec_nonzero_pairs pairs ≠ [] ∧
  v = F64.mul (np_mean ((λ p, F64.abs (F64.div (F64.sub p.2 p.1) p.2)) <$>
                        spec_nonzero_pairs pairs)) F64.c100.
Proof.
  unfold spec_mape. destruct (spec_nonzero_pairs pairs) eqn:E; [done|].
  by intros [= <-].
Qed.

Lemma spec_mape_nan_iff pairs v :
  Forall valid_pair pairs → len pairs < 2 ^ 53 → spec_mape pairs = Some v →
  F64.isnan v = true ↔ Exists (λ p, F64.no_inf p.2 = false) pairs.
Proof.
  intros Hv Hlen [Hne ->]%spec_mape_Some. rewrite Forall_forall in Hv. split.
  - intros Hnan.
    destruct (decide (Exists (λ p, F64.no_inf p.2 = false) pairs)) as [|Hn]; [done|].
    exfalso. revert Hnan. apply not_true_iff_false, isnan_pos.
    apply (SFmul_pos_finite F64.prec F64.emax). apply np_mean_pos.
    + apply Forall_fmap, Forall_forall. intros p [Hnz Hin]%list_elem_of_filter. simpl.
      apply SFabs_pos. intros E. apply Hn, Exists_exists. exists p. split; [done|].
      apply ratio_nan_iff; [by apply Hv|done|].
      by rewrite E.
    + unfold len in *. rewrite length_fmap.
      pose proof (length_filter (λ p : float * float, F64.eqb p.2 F64.zero = false) pairs).
      unfold spec_nonzero_pairs in *.
      destruct (filter _ pairs); [done|]. simpl in *. lia.
  - intros (p & Hin & Hp)%Exists_exists.
    rewrite np_mean_nan; [done|]. unfold has_nan. apply Exists_fmap, Exists_exists.
    assert (F64.eqb p.2 F64.zero = false) as Hnz.
    { destruct p as [f a]. simpl in *. by destruct a as [|[]| |]. }
    exists p. split; [by apply list_elem_of_filter|].
    simpl. apply ratio_nan_iff; [by apply Hv|done..].
Qed.

(** ** The order of the sort *)

Lemma leb_key x y :
  F64.isnan x = false → F64.isnan y = false →
  F64.leb x y = true ↔ lex_le (key x) (key y).
Proof.
  unfold F64.leb, SFleb, lex_le.
  destruct x as [sx|sx| |sx mx ex], y as [sy|sy| |sy my ey]; try done; intros _ _;
    try (destruct sx); try (destruct sy); simpl; try (intuition (done || lia)).
  - change (Pos.compare_cont Eq mx my) with (mx ?= my)%positive.
    destruct (Z.compare_spec ex ey), (Pos.compare_spec mx my); simpl; intuition (done || lia).
  - change (Pos.compare_cont Eq mx my) with (mx ?= my)%positive.
    destruct (Z.compare_spec ex ey), (Pos.compare_spec mx my); simpl; intuition (done || lia).
Qed.

Lemma lex_le_total a b : lex_le a b ∨ lex_le b a.
Proof. unfold lex_le. lia. Qed.

Lemma lex_le_trans a b c : lex_le a b → lex_le b c → lex_le a c.
Proof. unfold lex_le. lia. Qed.

#[export] Instance column_le_total column : Total (column_le column).
Proof.
  intros a b. unfold column_le.
  destruct (F64.isnan (column a)) eqn:Ha; [by right; left|].
  destruct (F64.isnan (column b)) eqn:Hb; [by left; left|].
  destruct (lex_le_total (key (column a)) (key (column b))) as [H|H].
  - left. right. split; [done|]. by apply leb_key.
  - right. right. split; [done|]. by apply leb_key.
Qed.

#[export] Instance column_le_trans column : Transitive (column_le column).
Proof.
  intros a b c. unfold column_le. intros Hab [Hc|[Hb Hbc]]; [by left|].
  destruct Hab as [Hb'|[Ha Hab]]; [congruence|]. right. split; [done|].
  destruct (F64.isnan (column c)) eqn:Hc.
  { by destruct (column b), (column c). }
  apply leb_key; [done..|]. apply (lex_le_trans _ (key (column b))).
  - by apply (proj1 (leb_key _ _ Ha Hb)).
  - by apply (proj1 (leb_key _ _ Hb Hc)).
Qed.



(** ** Diagnostics *)

Lemma outcome_call {A} (o : option A) : outcome (call o) = o.
Proof. done. Qed.

Lemma compute_diagnostics_inv lib self district r :
  outcome (compute_diagnostics lib self district) = Some (Some r) →
  ∃ model adf lb,
    dict_get district (models self) = Some model ∧
    adfuller lib (dropna (Model.resid model)) = Some adf ∧
    acorr_ljungbox lib (dropna (Model.resid model)) 10 = Some lb ∧
    Diag.adf_pvalue r = Adf.pvalue adf ∧
    Diag.is_stationary r = F64.ltb (Adf.pvalue adf) F64.c0_05 ∧
    Diag.ljung_box_pvalue r = lb ∧
    Diag.no_autocorrelation r = F64.ltb F64.c0_05 lb ∧
    Diag.shapiro_pvalue r =
      (if shapiro_range (len (dropna (Model.resid model)))
       then '(_, p) ← shapiro lib (dropna (Model.resid model));
            if F64.truthy p then Some p else None
       else None) ∧
    (shapiro_range (len (dropna (Model.resid model))) = true →
     is_Some (shapiro lib (dropna (Model.resid model)))).
Proof.
  unfold compute_diagnostics. destruct (dict_get district (models self)) as [model|]; [|done].
  rewrite (outcome_bind_Some _ _ (default Stats.empty (district_stats self !! district))) by done.
  rewrite outcome_try_except.
  rewrite (outcome_bind_Some _ _ (Model.resid model)) by done.
  rewrite outcome_bind, outcome_call.
  destruct (adfuller lib _) as [adf|] eqn:Eadf; [|done]. cbn [mbind option_bind].
  rewrite outcome_bind, outcome_call.
  destruct (acorr_ljungbox lib _ _) as [lb|] eqn:Elb; [|done]. cbn [mbind option_bind].
  cbv zeta. fold (shapiro_range (len (dropna (Model.resid model)))).
  rewrite outcome_bind.
  destruct (shapiro_range _) eqn:Er.
  - rewrite outcome_bind, outcome_call.
    destruct (shapiro lib _) as [[w p]|] eqn:Es; [|done]. cbn.
    intros [= <-]. eexists model, adf, lb. rewrite Er, Es. by repeat split.
  - cbn. intros [= <-]. eexists model, adf, lb. rewrite Er. by repeat split.
Qed.

Lemma compute_diagnostics_no_raise lib self district :
  is_Some (outcome (compute_diagnostics lib self district)).
Proof.
  unfold compute_diagnostics. destruct (dict_get district (models self)) as [model|]; [|done].
  rewrite (outcome_bind_Some _ _ (default Stats.empty (district_stats self !! district))) by done.
  rewrite outcome_try_except. by destruct (outcome _).
Qed.

Lemma compute_metrics_no_raise self district fp :
  is_Some (outcome (compute_metrics self district fp)).
Proof.
  destruct (dict_get district (models self)) as [model|] eqn:E.
  - by rewrite (compute_metrics_outcome _ _ _ model).
  - unfold compute_metrics. by rewrite E.
Qed.

Lemma compute_metrics_inv self district fp r :
  outcome (compute_metrics self district fp) = Some (Some r) →
  ∃ model, dict_get district (models self) = Some model ∧
    spec_metrics district model (default Stats.empty (district_stats self !! district)) = Some r.
Proof.
  destruct (dict_get district (models self)) as [model|] eqn:E.
  - rewrite (compute_metrics_outcome _ _ _ model) by done. intros [= H]. by exists model.
  - unfold compute_metrics. by rewrite E.
Qed.

(** ** The summary table *)

Section summary.
Context (lib : Lib) (self : ARIMADiagnostics).

Lemma summary_loop_outcome districts rows :
  outcome (for_fold districts rows (λ district rows,
    diagnostics ← compute_diagnostics lib self district;
    metrics ← compute_metrics self district 6;
    match diagnostics, metrics with
    | Some d, Some m => mret (rows ++ [summary_row lib district d m])
    | _, _ => mret rows
    end)) = Some (rows ++ omap (row_of lib self) districts).
Proof.
  revert rows. induction districts as [|district districts IH]; intros rows.
  { by rewrite app_nil_r. }
  destruct (compute_diagnostics_no_raise lib self district) as [d Hd].
  destruct (compute_metrics_no_raise self district 6) as [m Hm].
  assert (row_of lib self district = match d, m with
                            | Some d, Some m => Some (summary_row lib district d m)
                            | _, _ => None
                            end) as Hrow by (unfold row_of; by rewrite Hd, Hm).
  cbn [for_fold omap list_omap]. rewrite Hrow.
  rewrite outcome_bind, outcome_bind, Hd. cbn [mbind option_bind].
  rewrite outcome_bind, Hm. cbn [mbind option_bind].
  destruct d as [d|], m as [m|]; cbn [outcome mret M_ret mbind option_bind];
    rewrite IH; by rewrite <-?app_assoc.
Qed.

Lemma generate_summary_table_outcome :
  outcome (generate_summary_table lib self) =
    Some (let rows := spec_summary_rows lib self in
          if 0 <? len rows then sort_values lib Row.RMSE rows else rows).
Proof.
  unfold generate_summary_table. rewrite outcome_bind, summary_loop_outcome.
  cbn [mbind option_bind app]. fold (spec_summary_rows lib self).
  by destruct (0 <? len (spec_summary_rows lib self)).
Qed.

Lemma row_of_district district row :
  row_of lib self district = Some row → Row.District row = district.
Proof. unfold row_of. repeat case_match; naive_solver. Qed.

Lemma row_of_is_Some district :
  is_Some (row_of lib self district) ↔ both_succeed lib self district = true.
Proof.
  unfold row_of, both_succeed, succeeds.
  destruct (outcome (compute_diagnostics _ _ _)) as [[d|]|],
           (outcome (compute_metrics _ _ _)) as [[m|]|]; simpl;
    split; (done || by intros []).
Qed.

Lemma summary_rows_districts :
  Row.District <$> spec_summary_rows lib self
  = filter (λ d, both_succeed lib self d = true) (get_districts self).
Proof.
  unfold spec_summary_rows.
  induction (get_districts self) as [|d ds IH]; [done|].
  cbn [omap list_omap]. rewrite filter_cons.
  destruct (row_of lib self d) as [row|] eqn:E.
  - rewrite decide_True by (apply row_of_is_Some; by rewrite E).
    rewrite fmap_cons. by rewrite IH, (row_of_district d row).
  - rewrite decide_False; [done|]. rewrite <-row_of_is_Some, E. by intros [].
Qed.
End summary.

(** * The claims *)

Lemma spec_metrics_inv district model stats r :
  spec_metrics district model stats = Some r →
  let pairs := spec_valid_pairs (Model.fittedvalues model) (Model.endog model) in
  pairs ≠ [] ∧
  Metrics.rmse r = spec_rmse pairs ∧
  Metrics.mae r = spec_mae pairs ∧
  Metrics.mape r = spec_mape pairs ∧
  Metrics.ci_coverage_95 r = None.
Proof.
  unfold spec_metrics. cbv zeta.
  destruct (spec_valid_pairs _ _) eqn:E; [done|]. by intros [= <-].
Qed.

Lemma spec_mape_None pairs :
  spec_mape pairs = None ↔ Forall (λ p, F64.eqb p.2 F64.zero = true) pairs.
Proof.
  unfold spec_mape, spec_nonzero_pairs. split.
  - destruct (filter _ pairs) eqn:E; [|done]. intros _.
    apply Forall_forall. intros p Hp.
    destruct (F64.eqb p.2 F64.zero) eqn:Hz; [done|].
    destruct (filter_nil_not_elem_of _ _ p E Hz Hp).
  - intros H. rewrite Forall_forall in H.
    destruct (filter _ pairs) as [|p l] eqn:E; [done|].
    assert (p ∈ filter (λ p : float * float, F64.eqb p.2 F64.zero = false) pairs)
      as [Hz Hin]%list_elem_of_filter by (rewrite E; left).
    rewrite (H p Hin) in Hz. done.
Qed.

(** C1 (amended). For every region whose [compute_metrics] call returns a
    result, MAPE is absent if and only if every aligned (non-missing)
    actual value is zero; when some aligned actual value is non-zero,
    MAPE is [mean(|errors/actual|) * 100] over the positions with a
    non-zero actual value; and (for fewer than [2^53] aligned pairs, whose
    count is a float exactly) MAPE is NaN if and only if some aligned
    actual value is infinite. *)
Theorem mape_absent_iff_all_zero self district forecast_periods r :
  outcome (compute_metrics self district forecast_periods) = Some (Some r) →
  ∃ model, dict_get district (models self) = Some model ∧
    let pairs := spec_valid_pairs (Model.fittedvalues model) (Model.endog model) in
    (Metrics.mape r = None ↔ Forall (λ p, F64.eqb p.2 F64.zero = true) pairs) ∧
    (Exists (λ p, F64.eqb p.2 F64.zero = false) pairs →
     Metrics.mape r =
       Some (F64.mul (np_mean ((λ p, F64.abs (F64.div (F64.sub p.2 p.1) p.2)) <$>
                                filter (λ p, F64.eqb p.2 F64.zero = false) pairs))
                     F64.c100)) ∧
    (len pairs < 2 ^ 53 →
     ∀ v, Metrics.mape r = Some v →
       (F64.isnan v = true ↔ Exists (λ p, F64.no_inf p.2 = false) pairs)).
Proof.
  intros (model & Hm & Hr)%compute_metrics_inv. exists model. split; [done|].
  apply spec_metrics_inv in Hr as (Hne & _ & _ & Hmape & _). cbv zeta. rewrite Hmape.
  split; [apply spec_mape_None|]. split.
  - intros Hex. unfold spec_mape, spec_nonzero_pairs.
    destruct (filter _ _) eqn:E; [|done].
    apply Exists_exists in Hex as (p & Hin & Hp).
    destruct (filter_nil_not_elem_of _ _ p E Hp Hin).
  - intros Hlen v Hv. by apply spec_mape_nan_iff; [apply spec_valid_pairs_valid|..].
Qed.

Lemma mape_absent_iff_all_zero_witness :
  ∃ r, outcome (compute_metrics Examples.repo_a "A" 6) = Some (Some r) ∧
       Metrics.mape r = Some (Standin.f 75) ∧ F64.isnan (Standin.f 75) = false.
Proof.
  eexists. split; [reflexivity|].
  destruct (mape_absent_iff_all_zero Examples.repo_a "A" 6 _ eq_refl)
    as (model & Hm & _ & Hformula & Hnan).
  injection Hm as <-.
  match goal with |- Metrics.mape ?r = _ ∧ _ =>
    assert (Metrics.mape r = Some (Standin.f 75)) as Hmape end.
  { etrans; [apply Hformula|vm_compute; reflexivity].
    apply Exists_cons_hd. vm_compute. reflexivity. }
  split; [exact Hmape|].
  match type of Hnan with ?P → _ => assert P as Hlen by (vm_compute; reflexivity) end.
  apply not_true_iff_false. intros E. apply (Hnan Hlen _ Hmape) in E.
  revert E. apply Forall_Exists_neg. vm_compute.
  repeat (constructor; [intros E; discriminate E|]). constructor.
Defined.

(** C1, the claim as stated fails: with an infinite observation the
    ratio [errors/actual] is [inf/inf], and MAPE is NaN. *)
Lemma mape_nan_with_infinite_actual :
  ∃ r v, outcome (compute_metrics Examples.repo_inf_actual "A" 6) = Some (Some r) ∧
         Metrics.mape r = Some v ∧ F64.isnan v = true.
Proof. eexists _, _. split; [reflexivity|]. split; reflexivity. Qed.

Lemma dict_get_None {V} district (d : list (string * V)) :
  dict_get district d = None ↔ district ∉ d.*1.
Proof.
  induction d as [|[k v] d IH]; simpl.
  - split; [intros _; apply not_elem_of_nil|done].
  - rewrite not_elem_of_cons. destruct (decide (district = k)); intuition congruence.
Qed.

(** C5 (amended). For every region with a fitted model, [compute_metrics]
    does not raise and returns what the specification's steps give:
    both sequences are cut to their common trailing length, the positions
    with a missing value on either side are dropped, and the result is
    absent when no valid pair remains. In a result, RMSE and MAE are the
    specified means, they are never negative, and (for fewer than [2^53]
    aligned pairs) each is [>= 0] if and only if no aligned pair has a
    fitted value and an observation that are the same infinity. *)
Theorem metrics_alignment_and_sign self district forecast_periods model :
  dict_get district (models self) = Some model →
  let stats := default Stats.empty (district_stats self !! district) in
  let pairs := spec_valid_pairs (Model.fittedvalues model) (Model.endog model) in
  outcome (compute_metrics self district forecast_periods)
    = Some (spec_metrics district model stats) ∧
  (pairs = [] ↔ outcome (compute_metrics self district forecast_periods) = Some None) ∧
  ∀ r, outcome (compute_metrics self district forecast_periods) = Some (Some r) →
    Metrics.rmse r = spec_rmse pairs ∧
    Metrics.mae r = spec_mae pairs ∧
    F64.lt0 (Metrics.rmse r) = false ∧
    F64.lt0 (Metrics.mae r) = false ∧
    (len pairs < 2 ^ 53 →
     (F64.ge0 (Metrics.rmse r) = true ↔ Forall (λ p, same_infinity p = false) pairs) ∧
     (F64.ge0 (Metrics.mae r) = true ↔ Forall (λ p, same_infinity p = false) pairs)).
Proof.
  intros Hm stats pairs.
  pose proof (compute_metrics_outcome self district forecast_periods model Hm) as Hout.
  fold stats in Hout. rewrite Hout. split; [done|]. split.
  - unfold spec_metrics. fold pairs. destruct pairs; naive_solver.
  - intros r [= Hr]. apply spec_metrics_inv in Hr as (Hne & -> & -> & _). fold pairs in Hne |- *.
    split; [done|]. split; [done|].
    split; [apply lt0_npos, spec_rmse_npos|]. split; [apply lt0_npos, spec_mae_npos|].
    intros Hlen.
    assert (Forall valid_pair pairs) as Hv by apply spec_valid_pairs_valid.
    assert (0 < len pairs < 2 ^ 53) as Hl.
    { unfold len in *. destruct pairs; [done|]. simpl in *. lia. }
    split; [by apply spec_rmse_ge0|by apply spec_mae_ge0].
Qed.

Lemma metrics_alignment_and_sign_witness :
  ∃ r, outcome (compute_metrics Examples.repo_a "A" 6) = Some (Some r) ∧
       F64.ge0 (Metrics.rmse r) = true ∧ F64.ge0 (Metrics.mae r) = true.
Proof.
  eexists. split; [reflexivity|].
  destruct (metrics_alignment_and_sign Examples.repo_a "A" 6 _ eq_refl) as (_ & _ & H).
  destruct (H _ eq_refl) as (_ & _ & _ & _ & Hge).
  match type of Hge with ?P → _ => assert P as Hlen by (vm_compute; reflexivity) end.
  destruct (Hge Hlen) as [Hrmse Hmae].
  split; [apply Hrmse|apply Hmae]; vm_compute;
    repeat (constructor; [reflexivity|]); constructor.
Defined.

(** C5, the claim as stated fails: when the fitted value and the
    observation are both infinite the error is [inf - inf], and RMSE and
    MAE are NaN, which is not [>= 0]. *)
Lemma rmse_nan_with_infinite_values :
  ∃ r, outcome (compute_metrics Examples.repo_inf_both "A" 6) = Some (Some r) ∧
       F64.ge0 (Metrics.rmse r) = false ∧ F64.ge0 (Metrics.mae r) = false.
Proof. eexists. split; [reflexivity|]. split; reflexivity. Qed.

(** C7. In every result of [compute_metrics] the confidence-interval
    coverage is absent, whatever the model and the [forecast_periods]
    argument. *)
Theorem ci_coverage_always_absent self district forecast_periods r :
  outcome (compute_metrics self district forecast_periods) = Some (Some r) →
  Metrics.ci_coverage_95 r = None.
Proof.
  intros (model & _ & Hr)%compute_metrics_inv.
  by apply spec_metrics_inv in Hr as (_ & _ & _ & _ & ?).
Qed.

Lemma ci_coverage_always_absent_witness :
  ∃ r, outcome (compute_metrics Examples.repo_a "A" 24) = Some (Some r) ∧
       Metrics.ci_coverage_95 r = None.
Proof.
  eexists. split; [reflexivity|].
  exact (ci_coverage_always_absent Examples.repo_a "A" 24 _ eq_refl).
Defined.

Lemma eqb_not_ltb x y : F64.eqb x y = true → F64.ltb x y = false ∧ F64.ltb y x = false.
Proof.
  unfold F64.eqb, F64.ltb, SFeqb, SFltb.
  destruct x as [sx|sx| |sx mx ex], y as [sy|sy| |sy my ey]; simpl; try done;
    try (by destruct sx, sy); try (by destruct sx); try (by destruct sy).
  destruct sx, sy; try done.
  - change (Pos.compare_cont Eq mx my) with (mx ?= my)%positive.
    change (Pos.compare_cont Eq my mx) with (my ?= mx)%positive.
    destruct (Z.compare_spec ex ey), (Z.compare_spec ey ex); try done; try lia.
    rewrite (Pos.compare_antisym mx my). by destruct (mx ?= my)%positive.
  - change (Pos.compare_cont Eq mx my) with (mx ?= my)%positive.
    change (Pos.compare_cont Eq my mx) with (my ?= mx)%positive.
    destruct (Z.compare_spec ex ey), (Z.compare_spec ey ex); try done; try lia.
    rewrite (Pos.compare_antisym mx my). by destruct (mx ?= my)%positive.
Qed.

(** C6. In every diagnostic result, [is_stationary] is true exactly when
    the ADF p-value is strictly below 0.05 and [no_autocorrelation] is
    true exactly when the Ljung-Box p-value is strictly above 0.05; a
    p-value equal to 0.05 makes its boolean false; and each p-value is
    the one its own test returned on the cleaned residuals. *)
Theorem diagnostic_flags_strict lib self district d :
  outcome (compute_diagnostics lib self district) = Some (Some d) →
  (Diag.is_stationary d = true ↔ F64.ltb (Diag.adf_pvalue d) F64.c0_05 = true) ∧
  (Diag.no_autocorrelation d = true ↔ F64.ltb F64.c0_05 (Diag.ljung_box_pvalue d) = true) ∧
  (F64.eqb (Diag.adf_pvalue d) F64.c0_05 = true → Diag.is_stationary d = false) ∧
  (F64.eqb (Diag.ljung_box_pvalue d) F64.c0_05 = true → Diag.no_autocorrelation d = false) ∧
  ∃ model adf,
    dict_get district (models self) = Some model ∧
    adfuller lib (dropna (Model.resid model)) = Some adf ∧
    Diag.adf_pvalue d = Adf.pvalue adf ∧
    acorr_ljungbox lib (dropna (Model.resid model)) 10 = Some (Diag.ljung_box_pvalue d).
Proof.
  intros (model & adf & lb & Hm & Hadf & Hlb & Hp & Hs & Hl & Ha & _ & _)%compute_diagnostics_inv.
  rewrite Hs, Ha, Hp, Hl. split; [done|]. split; [done|].
  split; [by intros [? _]%eqb_not_ltb|]. split; [by intros [_ ?]%eqb_not_ltb|].
  by exists model, adf.
Qed.

Lemma diagnostic_flags_strict_witness :
  ∃ d, outcome (compute_diagnostics Examples.lib_boundary Examples.repo_a "A") = Some (Some d) ∧
       Diag.adf_pvalue d = F64.c0_05 ∧ Diag.is_stationary d = false ∧
       Diag.ljung_box_pvalue d = F64.c0_05 ∧ Diag.no_autocorrelation d = false.
Proof.
  eexists. split; [reflexivity|].
  destruct (diagnostic_flags_strict Examples.lib_boundary Examples.repo_a "A" _ eq_refl)
    as (_ & _ & H1 & H2 & _).
  split; [reflexivity|]. split; [apply H1; reflexivity|].
  split; [reflexivity|]. apply H2; reflexivity.
Defined.

(** X2. The normality p-value of a diagnostic result: absent when the
    cleaned sample size is outside the range of the test; inside the
    range it is the p-value the test returned, unless that p-value is
    zero, in which case the truthiness test drops it. *)
Theorem shapiro_pvalue_cases lib self district d :
  outcome (compute_diagnostics lib self district) = Some (Some d) →
  ∃ model, dict_get district (models self) = Some model ∧
    let n := len (dropna (Model.resid model)) in
    (shapiro_range n = false → Diag.shapiro_pvalue d = None) ∧
    (shapiro_range n = true →
     ∃ w p, shapiro lib (dropna (Model.resid model)) = Some (w, p) ∧
       Diag.shapiro_pvalue d = if F64.truthy p then Some p else None).
Proof.
  intros (model & adf & lb & Hm & _ & _ & _ & _ & _ & _ & Hs & Hin)%compute_diagnostics_inv.
  exists model. split; [done|]. cbv zeta. rewrite Hs.
  destruct (shapiro_range _); split; try done. intros _.
  destruct Hin as [[w p] E]; [done|]. rewrite E. by exists w, p.
Qed.

Lemma shapiro_pvalue_cases_witness :
  ∃ d, outcome (compute_diagnostics Examples.lib0 Examples.repo_a "A") = Some (Some d) ∧
       shapiro_range (len (dropna Standin.resid12)) = true ∧
       Diag.shapiro_pvalue d = Some (Standin.ratio 1 4).
Proof.
  eexists. split; [vm_compute; reflexivity|]. split; [reflexivity|].
  destruct (shapiro_pvalue_cases Examples.lib0 Examples.repo_a "A" _ eq_refl)
    as (model & Hm & _ & Hin).
  injection Hm as <-.
  destruct Hin as (w & p & Hs & Hp); [reflexivity|].
  etrans; [exact Hp|]. vm_compute in Hs. injection Hs as <- <-. vm_compute. reflexivity.
Defined.

(** C2, evaluated at the failing input. Region A has 2004 cleaned
    residuals, inside the range of the test, and the library answers
    the p-value 0.0: the diagnostics succeed and the normality p-value
    is absent. *)
Theorem shapiro_pvalue_zero_is_dropped :
  ∃ d, outcome (compute_diagnostics Examples.lib_shapiro0 Examples.repo_two_valued "A")
         = Some (Some d) ∧
       len (dropna Examples.resid2004) = 2004 ∧
       shapiro_range (len (dropna Examples.resid2004)) = true ∧
       shapiro Examples.lib_shapiro0 (dropna Examples.resid2004)
         = Some (Standin.ratio 5 8, F64.zero) ∧
       Diag.shapiro_pvalue d = None.
Proof.
  eexists. split; [vm_compute; reflexivity|].
  repeat split; vm_compute; reflexivity.
Qed.

(** C9. For a region that is not in the registry, the two computations
    and the two plot generators return absent at once: no exception, no
    read of a model or of the training statistics, nothing logged. *)
Theorem unknown_region_returns_absent lib self district
    forecast_periods confidence_level show_fitted :
  district ∉ get_districts self →
  compute_diagnostics lib self district = Run [] (Some None) ∧
  compute_metrics self district forecast_periods = Run [] (Some None) ∧
  generate_forecast_plot self district forecast_periods confidence_level show_fitted
    = Run [] (Some None) ∧
  generate_residual_plots lib self district = Run [] (Some None).
Proof.
  intros H%dict_get_None.
  unfold compute_diagnostics, compute_metrics, generate_forecast_plot,
    generate_residual_plots.
  by rewrite H.
Qed.

Lemma unknown_region_returns_absent_witness :
  ("Z" ∉ get_districts Examples.repo_three) ∧
  compute_diagnostics Examples.lib0 Examples.repo_three "Z" = Run [] (Some None) ∧
  compute_metrics Examples.repo_three "Z" 6 = Run [] (Some None) ∧
  generate_forecast_plot Examples.repo_three "Z" 24 F64.c0_95 true = Run [] (Some None) ∧
  generate_residual_plots Examples.lib0 Examples.repo_three "Z" = Run [] (Some None).
Proof.
  assert ("Z" ∉ get_districts Examples.repo_three) as H.
  { apply dict_get_None. reflexivity. }
  split; [exact H|].
  exact (unknown_region_returns_absent Examples.lib0 Examples.repo_three "Z"
           24 F64.c0_95 true H).
Defined.

Lemma summary_table_permutation lib self :
  (∀ rows, sort_values lib Row.RMSE rows ≡ₚ rows) →
  ∃ table, outcome (generate_summary_table lib self) = Some table ∧
           table ≡ₚ spec_summary_rows lib self.
Proof.
  intros Hsort. rewrite generate_summary_table_outcome. eexists. split; [done|].
  cbv zeta. by destruct (0 <? len _).
Qed.

Lemma elem_of_summary_rows lib self district d m :
  district ∈ get_districts self →
  outcome (compute_diagnostics lib self district) = Some (Some d) →
  outcome (compute_metrics self district 6) = Some (Some m) →
  summary_row lib district d m ∈ spec_summary_rows lib self.
Proof.
  intros Hin Hd Hm. unfold spec_summary_rows. apply list_elem_of_omap.
  exists district. split; [done|]. unfold row_of. by rewrite Hd, Hm.
Qed.

(** C10. A MAPE (or a CI coverage) that is exactly zero is shown as
    absent: the row builder tests the value's truthiness, so 0.0 is
    treated like a missing value; and the row of a region whose metrics
    carry a zero MAPE is in the summary table with its MAPE absent. *)
Theorem zero_mape_shown_absent lib self district d m z :
  F64.eqb z F64.zero = true →
  (Metrics.mape m = Some z → Row.MAPE (summary_row lib district d m) = None) ∧
  (Metrics.ci_coverage_95 m = Some z → Row.CI_Coverage (summary_row lib district d m) = None) ∧
  ((∀ rows, sort_values lib Row.RMSE rows ≡ₚ rows) →
   district ∈ get_districts self →
   outcome (compute_diagnostics lib self district) = Some (Some d) →
   outcome (compute_metrics self district 6) = Some (Some m) →
   Metrics.mape m = Some z →
   ∃ table row, outcome (generate_summary_table lib self) = Some table ∧
     row ∈ table ∧ Row.District row = district ∧ Row.MAPE row = None).
Proof.
  intros Hz.
  assert (∀ v, v = Some z → round_if_truthy lib v 1 = None) as Hround.
  { intros v ->. unfold round_if_truthy, F64.truthy. by rewrite Hz. }
  split; [apply Hround|]. split; [apply Hround|].
  intros Hsort Hin Hd Hm Hmape.
  destruct (summary_table_permutation lib self Hsort) as (table & Ht & Hperm).
  exists table, (summary_row lib district d m). split; [done|].
  split; [|split; [done|by apply Hround]].
  rewrite Hperm. by apply elem_of_summary_rows.
Qed.

Lemma zero_mape_shown_absent_witness :
  ∃ m table row,
    outcome (compute_metrics Examples.repo_perfect "A" 6) = Some (Some m) ∧
    Metrics.mape m = Some F64.zero ∧
    outcome (generate_summary_table Examples.lib0 Examples.repo_perfect) = Some table ∧
    row ∈ table ∧ Row.District row = "A" ∧ Row.MAPE row = None.
Proof.
  assert (∃ d, outcome (compute_diagnostics Examples.lib0 Examples.repo_perfect "A")
               = Some (Some d)) as [d Hd] by (eexists; reflexivity).
  assert (∃ m, outcome (compute_metrics Examples.repo_perfect "A" 6) = Some (Some m)
               ∧ Metrics.mape m = Some F64.zero) as (m & Hm & Hmape)
    by (eexists; split; reflexivity).
  destruct (zero_mape_shown_absent Examples.lib0 Examples.repo_perfect "A" d m F64.zero eq_refl)
    as (_ & _ & H).
  destruct H as (table & row & Ht & Hrow & Hdist & Hnone);
    [intros; apply merge_sort_Permutation | by left | done | done | done |].
  by exists m, table, row.
Defined.

Lemma filter_nil_all {A} (P : A → Prop) `{∀ x, Decision (P x)} (l : list A) :
  (∀ x, x ∈ l → ¬ P x) → filter P l = [].
Proof.
  induction l as [|x l IH]; intros Hl; [done|].
  rewrite filter_cons, decide_False by (apply Hl; by left).
  apply IH. intros y Hy. apply Hl. by right.
Qed.

(** C4. The summary table is produced without raising and has exactly
    one row per region for which both computations return a result: it
    is a rearrangement of the rows built in traversal order, its district
    column is a rearrangement of the regions for which both succeed, with
    no district twice; with no region, or with no region for which both
    succeed, the table is empty. *)
Theorem summary_table_one_row_per_success lib self :
  (∀ rows, sort_values lib Row.RMSE rows ≡ₚ rows) →
  NoDup (get_districts self) →
  ∃ table,
    outcome (generate_summary_table lib self) = Some table ∧
    table ≡ₚ spec_summary_rows lib self ∧
    Row.District <$> table
      ≡ₚ filter (λ d, both_succeed lib self d = true) (get_districts self) ∧
    NoDup (Row.District <$> table) ∧
    (get_districts self = [] → table = []) ∧
    ((∀ d, d ∈ get_districts self → both_succeed lib self d = false) → table = []).
Proof.
  intros Hsort Hnodup.
  destruct (summary_table_permutation lib self Hsort) as (table & Ht & Hperm).
  exists table. split; [done|]. split; [done|].
  assert (Row.District <$> table
            ≡ₚ filter (λ d, both_succeed lib self d = true) (get_districts self)) as Hd.
  { by rewrite Hperm, summary_rows_districts. }
  split; [done|]. split; [rewrite Hd; by apply NoDup_filter|].
  split.
  - intros Hnil. rewrite Hnil in Hd. apply Permutation_nil_r in Hd. by destruct table.
  - intros Hfail. 
    assert (filter (λ d, both_succeed lib self d = true) (get_districts self) = []) as Hnil.
    { apply filter_nil_all. intros d Hin. by rewrite Hfail. }
    rewrite Hnil in Hd. apply Permutation_nil_r in Hd. by destruct table.
Qed.

Lemma summary_table_one_row_per_success_witness :
  NoDup (get_districts Examples.repo_three) ∧
  ∃ table,
    outcome (generate_summary_table Examples.lib0 Examples.repo_three) = Some table ∧
    Row.District <$> table
      ≡ₚ filter (λ d, both_succeed Examples.lib0 Examples.repo_three d = true)
                (get_districts Examples.repo_three) ∧
    NoDup (Row.District <$> table).
Proof.
  assert (NoDup (get_districts Examples.repo_three)) as Hnd.
  { apply (bool_decide_unpack _). vm_compute. exact I. }
  split; [exact Hnd|].
  destruct (summary_table_one_row_per_success Examples.lib0 Examples.repo_three
              (λ rows, merge_sort_Permutation _ rows) Hnd)
    as (table & Ht & _ & Hd & Hn & _).
  exists table. split; [exact Ht|]. split; [exact Hd|exact Hn].
Defined.





(** ** The forecast export *)

Lemma trace_try_except {A} (body handler : M A) :
  trace (try_except body handler) =
    trace body ++ (if outcome body is Some _ then [] else trace handler).
Proof. unfold try_except. destruct (outcome body); simpl; by rewrite ?app_nil_r. Qed.

Lemma appended_app tr1 tr2 : appended (tr1 ++ tr2) = appended tr1 ++ appended tr2.
Proof. apply omap_app. Qed.

Lemma district_periods_app tr1 tr2 :
  district_periods (appended (tr1 ++ tr2))
  = district_periods (appended tr1) ++ district_periods (appended tr2).
Proof. unfold district_periods. by rewrite appended_app, fmap_app. Qed.

Lemma for_each_cons {A} (x : A) xs (body : A → M unit) :
  for_each (x :: xs) body = body x ≫= λ _, for_each xs body.
Proof. done. Qed.

(** A loop whose passes do not raise does not raise, and its effects are
    those of its passes, in order. *)
Lemma for_each_no_raise {A} (xs : list A) (body : A → M unit) :
  (∀ x, x ∈ xs → outcome (body x) = Some ()) →
  outcome (for_each xs body) = Some () ∧
  trace (for_each xs body) = xs ≫= λ x, trace (body x).
Proof.
  induction xs as [|x xs IH]; intros Hok; [done|].
  destruct IH as [IHo IHt]; [intros y Hy; apply Hok; by right|].
  rewrite for_each_cons, outcome_bind, trace_bind.
  rewrite (Hok x) by by left. cbn [mbind option_bind from_option].
  split; [done|]. by rewrite IHt.
Qed.

Section export.
Context (lib : Lib).

Lemma export_row_trace district predictions conf_int i :
  outcome (export_row lib district predictions conf_int i) = Some () →
  district_periods (appended (trace (export_row lib district predictions conf_int i)))
    = [(district, i + 1)].
Proof.
  unfold export_row. rewrite !outcome_bind, !trace_bind. cbn [outcome trace call].
  destruct (strftime_months_ahead lib (i + 1)) as [date|]; [|done].
  cbn [mbind option_bind from_option]. rewrite !outcome_bind, !trace_bind. cbn [outcome trace call].
  destruct (py_index predictions i) as [forecast|]; [|done].
  cbn [mbind option_bind from_option]. rewrite !outcome_bind, !trace_bind. cbn [outcome trace call].
  destruct (py_index conf_int.*1 i) as [lower|]; [|done].
  cbn [mbind option_bind from_option]. rewrite !outcome_bind, !trace_bind. cbn [outcome trace call].
  destruct (py_index conf_int.*2 i) as [upper|]; [|done].
  done.
Qed.

Lemma export_rows_trace district predictions conf_int steps :
  outcome (for_each steps (export_row lib district predictions conf_int)) = Some () →
  district_periods
    (appended (trace (for_each steps (export_row lib district predictions conf_int))))
    = (λ i, (district, i + 1)) <$> steps.
Proof.
  induction steps as [|i steps IH]; [done|].
  rewrite for_each_cons, outcome_bind, trace_bind.
  destruct (outcome (export_row _ _ _ _ i)) as [[]|] eqn:Hi; [|done].
  cbn [mbind option_bind from_option]. intros Hrest.
  by rewrite district_periods_app, (export_row_trace _ _ _ _ Hi), IH.
Qed.

(** The rows a district contributes when its export completes: one per
    step, numbered from 1. *)
Lemma export_district_rows district model forecast_periods :
  outcome (export_district lib district model forecast_periods) = Some () →
  district_periods (appended (trace (export_district lib district model forecast_periods)))
    = (λ i, (district, i + 1)) <$> py_range forecast_periods.
Proof.
  unfold export_district, model_get_forecast, forecast_conf_int.
  rewrite !outcome_bind, !trace_bind. cbn [outcome trace].
  destruct (Model.get_forecast model forecast_periods) as [fr|]; [|done].
  cbn [mbind option_bind from_option]. rewrite !outcome_bind, !trace_bind. cbn [outcome trace].
  destruct (Forecast.conf_int fr F64.c0_05) as [ci|]; [|done].
  cbn [mbind option_bind from_option]. intros H.
  rewrite !district_periods_app. by rewrite export_rows_trace.
Qed.

(** A district whose [get_forecast] or [conf_int] call raises contributes
    no row. *)
Lemma export_district_fails_early district model forecast_periods :
  Model.get_forecast model forecast_periods = None ∨
  (∃ fr, Model.get_forecast model forecast_periods = Some fr ∧
         Forecast.conf_int fr F64.c0_05 = None) →
  outcome (export_district lib district model forecast_periods) = None ∧
  appended (trace (export_district lib district model forecast_periods)) = [].
Proof.
  unfold export_district, model_get_forecast, forecast_conf_int.
  rewrite !outcome_bind, !trace_bind. cbn [outcome trace].
  intros [->|(fr & -> & Hci)]; [done|].
  cbn [mbind option_bind from_option]. rewrite !outcome_bind, !trace_bind. cbn [outcome trace].
  by rewrite Hci.
Qed.

Context (self : ARIMADiagnostics) (forecast_periods : Z).

Lemma export_step_outcome district :
  district ∈ get_districts self →
  outcome (export_step lib self forecast_periods district) = Some ().
Proof.
  intros Hin. unfold export_step.
  destruct (dict_get district (models self)) as [model|] eqn:E.
  - rewrite bind_call_Some, outcome_try_except. by destruct (outcome _) as [[]|].
  - by apply dict_get_None in E.
Qed.

Lemma export_step_rows district :
  no_partial_export lib self forecast_periods →
  district_periods (appended (trace (export_step lib self forecast_periods district)))
  = if export_completes lib self forecast_periods district
    then (λ i, (district, i + 1)) <$> py_range forecast_periods else [].
Proof.
  intros Hno. unfold export_step, export_completes.
  destruct (dict_get district (models self)) as [model|] eqn:E; [|done].
  rewrite bind_call_Some, trace_try_except, district_periods_app.
  destruct (outcome (export_district _ _ _ _)) as [[]|] eqn:Ho.
  - rewrite export_district_rows by done. by rewrite app_nil_r.
  - by rewrite (Hno _ _ E Ho).
Qed.

Lemma export_loop_rows districts :
  no_partial_export lib self forecast_periods →
  district_periods
    (appended (districts ≫= λ d, trace (export_step lib self forecast_periods d)))
  = filter (λ d, export_completes lib self forecast_periods d = true) districts
      ≫= λ d, (λ i, (d, i + 1)) <$> py_range forecast_periods.
Proof.
  intros Hno. induction districts as [|d ds IH]; [done|].
  rewrite bind_cons, district_periods_app, IH, export_step_rows by done.
  rewrite filter_cons. destruct (export_completes _ _ _ d); [|done].
  by rewrite decide_True, bind_cons by done.
Qed.

Lemma outcome_listen {A} (m : M A) :
  outcome (listen m) = (λ a, (a, trace m)) <$> outcome m.
Proof. done. Qed.

(** X1. When no district fails midway, the export does not raise and
    forecasts.csv holds, for each district whose export completes and in
    traversal order, one row per step, numbered from 1: the number of
    completed districts times the horizon. *)
Theorem export_rows_without_partial_failure :
  0 <= forecast_periods →
  no_partial_export lib self forecast_periods →
  ∃ rows,
    outcome (export_forecasts_csv lib self forecast_periods) = Some rows ∧
    district_periods rows
    = (filter (λ d, export_completes lib self forecast_periods d = true) (get_districts self)
         ≫= λ d, (λ i, (d, i + 1)) <$> py_range forecast_periods) ∧
    len rows
    = len (filter (λ d, export_completes lib self forecast_periods d = true)
                  (get_districts self)) * forecast_periods.
Proof.
  intros Hh Hno. unfold export_forecasts_csv.
  destruct (for_each_no_raise (get_districts self)
              (export_step lib self forecast_periods)) as [Ho Ht].
  { intros d Hd. by apply export_step_outcome. }
  rewrite outcome_bind, outcome_listen, Ho. cbn [fmap option_fmap option_map mbind option_bind].
  eexists. split; [done|]. rewrite Ht.
  assert (district_periods
            (appended (get_districts self
                         ≫= λ x, trace (export_step lib self forecast_periods x)))
          = (filter (λ d, export_completes lib self forecast_periods d = true)
                    (get_districts self)
               ≫= λ d, (λ i, (d, i + 1)) <$> py_range forecast_periods)) as Hrows
    by by apply export_loop_rows.
  split; [done|].
  apply (f_equal length) in Hrows. unfold district_periods in Hrows.
  rewrite length_fmap in Hrows. unfold len. rewrite Hrows. clear Hrows.
  induction (filter _ (get_districts self)) as [|d ds IH]; [done|].
  rewrite bind_cons, length_app, length_fmap. unfold py_range at 1.
  rewrite length_seqZ. cbn [length]. lia.
Qed.
End export.

Lemma export_rows_without_partial_failure_witness :
  ∃ rows,
    outcome (export_forecasts_csv Examples.lib0 Examples.repo_ties 2) = Some rows ∧
    district_periods rows = [("A", 1); ("A", 2); ("B", 1); ("B", 2)] ∧
    len rows = 4.
Proof.
  destruct (export_rows_without_partial_failure Examples.lib0 Examples.repo_ties 2)
    as (rows & Ho & Hr & Hl).
  - lia.
  - intros district model Hm Hnone. exfalso.
    unfold Examples.repo_ties, Standin.repo in Hm. cbn [models dict_get] in Hm.
    destruct (decide (district = "A")) as [->|_].
    { injection Hm as <-. vm_compute in Hnone. discriminate Hnone. }
    destruct (decide (district = "B")) as [->|_]; [|discriminate Hm].
    injection Hm as <-. vm_compute in Hnone. discriminate Hnone.
  - exists rows. split; [exact Ho|]. split.
    + etrans; [exact Hr|]. vm_compute. reflexivity.
    + etrans; [exact Hl|]. vm_compute. reflexivity.
Defined.

(** C8, evaluated at the failing input. Horizon 3; region A's forecast
    has two points, so building its third row raises and a warning is
    logged for A; region B's forecast has three. The file has five rows:
    A's first two rows were appended before the exception and stay. *)
Theorem export_keeps_rows_of_failed_region :
  let run := export_forecasts_csv Examples.lib0 Examples.repo_short 3 in
  warned (trace run) = ["A"] ∧
  district_periods <$> outcome run
    = Some [("A", 1); ("A", 2); ("B", 1); ("B", 2); ("B", 3)].
Proof. split; vm_compute; reflexivity. Qed.

(** ** What a computation leaves in the trace *)

Lemma logged_errors_app tr1 tr2 :
  logged_errors (tr1 ++ tr2) = logged_errors tr1 ++ logged_errors tr2.
Proof. apply omap_app. Qed.

Section only.
Context (P : event → Prop).

Lemma only_ret {A} (a : A) : only P (mret a).
Proof. constructor. Qed.

Lemma only_call {A} (o : option A) : only P (call o).
Proof. constructor. Qed.

Lemma only_bind {A B} (m : M A) (f : A → M B) :
  only P m → (∀ a, outcome m = Some a → only P (f a)) → only P (m ≫= f).
Proof.
  intros Hm Hf. unfold only. rewrite trace_bind. apply Forall_app. split; [done|].
  destruct (outcome m) as [a|]; [by apply Hf|constructor].
Qed.

Lemma only_try_except {A} (body handler : M A) :
  only P body → only P handler → only P (try_except body handler).
Proof.
  intros Hb Hh. unfold only. rewrite trace_try_except. apply Forall_app. split; [done|].
  destruct (outcome body); [constructor|done].
Qed.

Lemma only_read_model {A} district a (v : A) :
  P (ReadModel district a) → only P (read_model district a v).
Proof. intros H. by repeat constructor. Qed.

Lemma only_emit e : P e → only P (emit e).
Proof. intros H. by repeat constructor. Qed.

Lemma only_for_fold {A S} (xs : list A) (acc : S) (body : A → S → M S) :
  (∀ x acc, only P (body x acc)) → only P (for_fold xs acc body).
Proof.
  intros Hb. revert acc. induction xs as [|x xs IH]; intros acc; [apply only_ret|].
  simpl. apply only_bind; [apply Hb|]. intros acc' _. apply IH.
Qed.

End only.

Lemma only_no_errors {A} (m : M A) :
  only (λ e, ∀ d, e ≠ LogError d) m → logged_errors (trace m) = [].
Proof.
  unfold only. induction 1 as [|e tr He _ IH]; [done|].
  destruct e; try done. by destruct (He district).
Qed.

(** The handler runs, and logs, exactly when the body raised. *)
Lemma logged_errors_try {A} (body : M (option A)) district :
  only (λ e, ∀ d, e ≠ LogError d) body →
  logged_errors (trace (try_except body (emit (LogError district) ;; mret None)))
  = if outcome body is Some _ then [] else [district].
Proof.
  intros Hb. rewrite trace_try_except, logged_errors_app, only_no_errors by done.
  by destruct (outcome body).
Qed.

Ltac only_step_with tac :=
  first
    [ apply only_ret | apply only_call | apply only_emit; tac
    | apply only_bind; [|intros ? _]
    | match goal with |- only _ (if ?b then _ else _) => destruct b end
    | match goal with |- only _ (match ?x with _ => _ end) => destruct x end
    | progress cbv zeta ].

Ltac only_step := only_step_with ltac:(done).

Lemma contained_try {A} (body : M (option A)) district :
  only (λ e, ∀ d, e ≠ LogError d) body →
  contained district (try_except body (emit (LogError district) ;; mret None)).
Proof.
  intros Hb. unfold contained. rewrite logged_errors_try, outcome_try_except by done.
  destruct (outcome body); [split; [done|by left]|split; [done|by right]].
Qed.

Lemma contained_after_stats {A} self district (f : Stats.t → M (option A)) :
  (∀ s, contained district (f s)) → contained district (read_stats self district ≫= f).
Proof.
  intros H. unfold contained.
  rewrite (outcome_bind_Some _ _ (default Stats.empty (district_stats self !! district)))
    by done.
  rewrite trace_bind. cbn [outcome read_stats trace from_option].
  change (logged_errors ([ReadStats district] ++ ?t)) with (logged_errors t). apply H.
Qed.

Lemma contained_ret {A} district : contained district (mret (@None A)).
Proof. split; [done|by left]. Qed.

(** X3. [compute_diagnostics], [compute_metrics],
    [generate_forecast_plot] and [generate_residual_plots] never raise,
    whatever the model and the libraries do; and an exception caught
    inside one of them is turned into an absent result: either no error
    was logged, or one error was logged, for the region of the call, and
    the result is absent. *)
Theorem per_region_operations_never_raise lib self district
    forecast_periods confidence_level show_fitted :
  contained district (compute_diagnostics lib self district) ∧
  contained district (compute_metrics self district forecast_periods) ∧
  contained district (generate_forecast_plot self district forecast_periods
                        confidence_level show_fitted) ∧
  contained district (generate_residual_plots lib self district).
Proof.
  unfold compute_diagnostics, compute_metrics, generate_forecast_plot,
    generate_residual_plots.
  destruct (dict_get district (models self)) as [model|];
    [|split; [|split; [|split]]; apply contained_ret].
  split; [|split; [|split]].
  - apply contained_after_stats. intros s. apply contained_try. repeat only_step.
  - apply contained_after_stats. intros s. apply contained_try. repeat only_step.
  - apply contained_after_stats. intros s. apply contained_try. repeat only_step.
  - apply contained_try. repeat only_step.
Qed.

(** ** When the per-region computations fail *)

(** X4. For a region with a model, [compute_diagnostics] returns a result
    exactly when the ADF test, the Ljung-Box test and, for a cleaned
    residual count in [3 < n <= 5000], the Shapiro-Wilk test return
    rather than raise; and one error is logged, for this region, exactly
    when it returns no result. *)
Theorem diagnostics_absent_iff_a_test_raises lib self district model :
  dict_get district (models self) = Some model →
  let xs := dropna (Model.resid model) in
  (succeeds (compute_diagnostics lib self district) = true ↔
     is_Some (adfuller lib xs) ∧ is_Some (acorr_ljungbox lib xs 10) ∧
     (shapiro_range (len xs) = true → is_Some (shapiro lib xs))) ∧
  logged_errors (trace (compute_diagnostics lib self district)) =
     (if succeeds (compute_diagnostics lib self district) then [] else [district]).
Proof.
  intros Hm xs. unfold succeeds, compute_diagnostics. rewrite Hm.
  rewrite (outcome_bind_Some _ _ (default Stats.empty (district_stats self !! district))) by done.
  rewrite trace_bind. cbn [outcome read_stats trace from_option].
  change (logged_errors ([ReadStats district] ++ ?t)) with (logged_errors t).
  rewrite logged_errors_try by repeat only_step.
  rewrite outcome_try_except.
  rewrite (outcome_bind_Some _ _ (Model.resid model)) by done.
  rewrite outcome_bind, outcome_call. fold xs.
  destruct (adfuller lib xs) as [adf|]; cbn [mbind option_bind];
    [|split; [|done]; split; [done|]; by intros [[]%is_Some_None _]].
  rewrite outcome_bind, outcome_call.
  destruct (acorr_ljungbox lib xs 10) as [lb|]; cbn [mbind option_bind];
    [|split; [|done]; split; [done|]; by intros (_ & []%is_Some_None & _)].
  cbv zeta. fold (shapiro_range (len xs)). rewrite outcome_bind.
  destruct (shapiro_range (len xs)).
  - rewrite outcome_bind, outcome_call.
    destruct (shapiro lib xs) as [[w p]|]; cbn.
    + split; [|done]. split; [by eauto|done].
    + split; [|done]. split; [done|]. intros (_ & _ & H). by destruct H as [? ?].
  - cbn. split; [|done]. split; [|done]. intros _. split; [by eauto|]. split; [by eauto|done].
Qed.

Lemma diagnostics_absent_iff_a_test_raises_witness :
  succeeds (compute_diagnostics Examples.lib0 Examples.repo_three "C") = false ∧
  adfuller Examples.lib0 (dropna [Standin.half; Standin.half; Standin.half]) = None ∧
  logged_errors (trace (compute_diagnostics Examples.lib0 Examples.repo_three "C")) = ["C"].
Proof.
  destruct (diagnostics_absent_iff_a_test_raises Examples.lib0 Examples.repo_three "C" _ eq_refl)
    as [Hiff Hlog].
  assert (succeeds (compute_diagnostics Examples.lib0 Examples.repo_three "C") = false) as Hs
    by (vm_compute; reflexivity).
  split; [exact Hs|]. split; [vm_compute; reflexivity|].
  rewrite Hs in Hlog. exact Hlog.
Defined.

Lemma np_or_clash a b :
  len a ≠ len b → len a ≠ 1 → len b ≠ 1 → np_or a b = None.
Proof.
  intros H1 H2 H3. unfold np_or.
  destruct (Z.eqb_spec (len a) (len b)); [done|].
  destruct (Z.eqb_spec (len a) 1); [done|]. by destruct (Z.eqb_spec (len b) 1).
Qed.

(** X5. For a region with a model, [compute_metrics] logs an error exactly
    when one of the fitted and the observed sequence is empty and the
    other has two elements or more: the common length is then 0, the
    slice [[-0:]] keeps both whole, and their NaN masks cannot be
    broadcast. In every other case no error is logged, also when the
    result is absent for want of a valid pair. *)
Theorem metrics_error_logged_iff_lengths_clash self district forecast_periods model :
  dict_get district (models self) = Some model →
  logged_errors (trace (compute_metrics self district forecast_periods)) =
    match Model.fittedvalues model, Model.endog model with
    | [], _ :: _ :: _ | _ :: _ :: _, [] => [district]
    | _, _ => []
    end.
Proof.
  intros Hm. unfold compute_metrics. rewrite Hm.
  rewrite trace_bind. cbn [outcome read_stats trace from_option].
  change (logged_errors ([ReadStats district] ++ ?t)) with (logged_errors t).
  rewrite logged_errors_try by repeat only_step.
  set (stats := default Stats.empty _).
  rewrite (outcome_bind_Some _ _ (Model.fittedvalues model)) by done.
  rewrite (outcome_bind_Some _ _ (Model.endog model)) by done.
  cbv beta zeta.
  set (F := Model.fittedvalues model). set (E := Model.endog model).
  destruct (decide (length F `min` length E = 0)%nat) as [Hz|Hnz].
  - replace (Z.min (len F) (len E)) with 0 by (unfold len; lia).
    rewrite !py_slice_from_zero.
    destruct F as [|x F'], E as [|y E']; try done; simpl in Hz; try lia.
    + destruct E' as [|y' E''];
        [|by rewrite np_or_clash by (unfold len; simpl; lia)].
      change (np_or (F64.isnan <$> []) (F64.isnan <$> [y])) with (Some (@nil bool)).
      rewrite bind_call_Some. simpl fmap. by rewrite !np_mask_index_nil, !bind_call_Some.
    + destruct F' as [|x' F''];
        [|by rewrite np_or_clash by (unfold len; simpl; lia)].
      change (np_or (F64.isnan <$> [x]) (F64.isnan <$> [])) with (Some (@nil bool)).
      rewrite bind_call_Some. simpl fmap. by rewrite !np_mask_index_nil, !bind_call_Some.
  - set (n := (length F `min` length E)%nat) in *.
    replace (Z.min (len F) (len E)) with (Z.of_nat n) by (unfold len; lia).
    rewrite !py_slice_from_neg by lia.
    destruct (zip_trailing_fst n F E) as [H1 H2]; [lia..|].
    pose proof (metrics_aligned_outcome (zip (trailing n F) (trailing n E)) district
                  (Model.aic model) (Model.bic model) stats) as HH.
    cbv zeta in HH. rewrite H1, H2 in HH. rewrite HH.
    destruct F as [|? [|? ?]], E as [|? [|? ?]]; simpl in n; try done; lia.
Qed.

Lemma metrics_error_logged_iff_lengths_clash_witness :
  outcome (compute_metrics Examples.repo_unfitted "A" 6) = Some None ∧
  logged_errors (trace (compute_metrics Examples.repo_unfitted "A" 6)) = ["A"].
Proof.
  split; [vm_compute; reflexivity|].
  exact (metrics_error_logged_iff_lengths_clash Examples.repo_unfitted "A" 6 _ eq_refl).
Defined.

(** ** A perfect fit *)

Lemma sub_diag x : F64.is_finite x = true → F64.sub x x = F64.zero.
Proof.
  destruct x as [s|s| |s m e]; try done; intros _.
  - by destruct s.
  - unfold F64.sub, SFsub. by rewrite Z.sub_diag.
Qed.

Lemma np_sum_zeros xs : Forall (λ x, x = F64.zero) xs → np_sum xs = F64.zero.
Proof. apply (np_sum_closed (λ x, x = F64.zero)); [done|]. by intros x y -> ->. Qed.

Lemma finite_nonzero x :
  F64.is_finite x = true → F64.eqb x F64.zero = false → ∃ s m e, x = S754_finite s m e.
Proof. destruct x as [s|s| |s m e]; try done. by eexists _, _, _. Qed.

Lemma np_mean_zeros xs :
  Forall (λ x, x = F64.zero) xs → 0 < len xs < 2 ^ 53 → np_mean xs = F64.zero.
Proof.
  intros H Hlen. unfold np_mean. rewrite np_sum_zeros by done.
  by destruct (of_Z_finite _ Hlen) as (m & e & ->).
Qed.

Lemma len_fmap {A B} (g : A → B) (l : list A) : len (g <$> l) = len l.
Proof. unfold len. by rewrite length_fmap. Qed.

Lemma len_filter_le {A} (P : A → Prop) `{∀ x, Decision (P x)} (l : list A) :
  len (filter P l) <= len l.
Proof. unfold len. pose proof (length_filter P l). lia. Qed.

(** X6. When every aligned fitted value equals its observation, and these
    are finite, RMSE and MAE are exactly 0, MAPE is absent or exactly 0,
    and the summary table shows the MAPE of the region as absent. *)
Theorem perfect_fit_has_zero_errors lib self district forecast_periods model d r :
  dict_get district (models self) = Some model →
  let pairs := spec_valid_pairs (Model.fittedvalues model) (Model.endog model) in
  Forall (λ p, p.1 = p.2 ∧ F64.is_finite p.2 = true) pairs →
  len pairs < 2 ^ 53 →
  outcome (compute_metrics self district forecast_periods) = Some (Some r) →
  Metrics.rmse r = F64.zero ∧ Metrics.mae r = F64.zero ∧
  (Metrics.mape r = None ∨ Metrics.mape r = Some F64.zero) ∧
  Row.MAPE (summary_row lib district d r) = None.
Proof.
  intros Hm pairs0 Hfit Hlen Hr. subst pairs0.
  rewrite (compute_metrics_outcome _ _ _ model Hm) in Hr. injection Hr as Hr.
  apply spec_metrics_inv in Hr as (Hne & Hrmse & Hmae & Hmape & _).
  set (pairs := spec_valid_pairs _ _) in *. cbv zeta in Hne.
  assert (0 < len pairs < 2 ^ 53) as Hl.
  { unfold len in *. destruct pairs; [done|]. simpl in *. lia. }
  assert (Forall (λ e, e = F64.zero) (spec_errors pairs)) as Herr.
  { unfold spec_errors. apply Forall_fmap. eapply Forall_impl; [exact Hfit|].
    intros p [E Hp]. simpl. rewrite E. by apply sub_diag. }
  assert (Metrics.mape r = None ∨ Metrics.mape r = Some F64.zero) as Hcases.
  { rewrite Hmape. unfold spec_mape.
    destruct (spec_nonzero_pairs pairs) as [|p nz] eqn:Enz; [by left|]. right.
    rewrite <-Enz. f_equal. rewrite np_mean_zeros; [done| |].
    - apply Forall_fmap. unfold spec_nonzero_pairs.
      apply Forall_forall. intros q [Hq Hin]%list_elem_of_filter.
      rewrite Forall_forall in Hfit. destruct (Hfit q Hin) as [E Hfin]. simpl.
      destruct (finite_nonzero _ Hfin Hq) as (s & m & e & Eq).
      rewrite E, sub_diag by done. rewrite Eq. by destruct s.
    - rewrite len_fmap. split; [rewrite Enz; unfold len; simpl; lia|].
      pose proof (len_filter_le (λ p : float * float, F64.eqb p.2 F64.zero = false) pairs).
      unfold spec_nonzero_pairs. lia. }
  split; [|split; [|split; [done|]]].
  - rewrite Hrmse. unfold spec_rmse. rewrite np_mean_zeros; [done| |].
    + apply Forall_fmap. eapply Forall_impl; [exact Herr|]. by intros e ->.
    + unfold spec_errors. by rewrite !len_fmap.
  - rewrite Hmae. unfold spec_mae. rewrite np_mean_zeros; [done| |].
    + apply Forall_fmap. eapply Forall_impl; [exact Herr|]. by intros e ->.
    + unfold spec_errors. by rewrite !len_fmap.
  - cbn. by destruct Hcases as [->| ->].
Qed.

Lemma perfect_fit_has_zero_errors_witness :
  ∃ d r,
    outcome (compute_diagnostics Examples.lib0 Examples.repo_perfect "A") = Some (Some d) ∧
    outcome (compute_metrics Examples.repo_perfect "A" 6) = Some (Some r) ∧
    Metrics.rmse r = F64.zero ∧ Metrics.mae r = F64.zero ∧
    Row.MAPE (summary_row Examples.lib0 "A" d r) = None.
Proof.
  assert (∃ d, outcome (compute_diagnostics Examples.lib0 Examples.repo_perfect "A")
               = Some (Some d)) as [d Hd] by (eexists; vm_compute; reflexivity).
  assert (∃ r, outcome (compute_metrics Examples.repo_perfect "A" 6) = Some (Some r))
    as [r Hr] by (eexists; vm_compute; reflexivity).
  exists d, r. split; [exact Hd|]. split; [exact Hr|].
  destruct (perfect_fit_has_zero_errors Examples.lib0 Examples.repo_perfect "A" 6 _ d r eq_refl)
    as (H1 & H2 & _ & H4).
  - vm_compute. repeat (constructor; [split; reflexivity|]). constructor.
  - vm_compute. reflexivity.
  - exact Hr.
  - split; [exact H1|]. split; [exact H2|exact H4].
Defined.

(** ** The forecast plot *)




(** ** The residual plots *)

Lemma div_pos_finite_pos m e y : pos y → pos (F64.div (S754_finite false m e) y).
Proof.
  intros Hy. destruct y as [s|s| |s m' e']; try done; simpl in Hy; subst s; try done.
  by apply SFdiv_pos_finite.
Qed.

(** X8. Residual plots that are returned show the cleaned residuals twice
    (series and histogram) and the ACF and PACF the library returned for
    [max(2, min(20, n // 2 - 1))] lags; the lines are at 0 and, twice, at
    plus and minus [1.96 / sqrt(n)], a bound that is not negative. *)
Theorem residual_plot_lags_and_bounds lib self district fig :
  outcome (generate_residual_plots lib self district) = Some (Some fig) →
  ∃ model acf_values pacf_values,
    dict_get district (models self) = Some model ∧
    let residuals := dropna (Model.resid model) in
    let nlags := Z.max 2 (Z.min 20 (len residuals / 2 - 1)) in
    let bound := F64.div F64.c1_96 (F64.sqrt (F64.of_Z (len residuals))) in
    acf lib residuals nlags = Some acf_values ∧
    pacf lib residuals nlags = Some pacf_values ∧
    Fig.traces fig =
      [Fig.Trace "Residuals" Fig.Scatter [] residuals;
       Fig.Trace "Distribution" Fig.Histogram [] residuals;
       Fig.Trace "ACF" Fig.Bar [] acf_values;
       Fig.Trace "PACF" Fig.Bar [] pacf_values] ∧
    Fig.hlines fig = [F64.zero; bound; F64.opp bound; bound; F64.opp bound] ∧
    pos bound.
Proof.
  unfold generate_residual_plots.
  destruct (dict_get district (models self)) as [model|]; [|done].
  rewrite outcome_try_except.
  rewrite (outcome_bind_Some _ _ (Model.resid model)) by done.
  cbv zeta. set (residuals := dropna (Model.resid model)).
  assert ((if Z.min 20 (len residuals / 2 - 1) <? 2 then 2
           else Z.min 20 (len residuals / 2 - 1))
          = Z.max 2 (Z.min 20 (len residuals / 2 - 1))) as -> by (case_match; lia).
  rewrite outcome_bind, outcome_call.
  destruct (acf lib _ _) as [acf_values|] eqn:Eacf; [|done]. cbn [mbind option_bind].
  rewrite outcome_bind, outcome_call.
  destruct (pacf lib _ _) as [pacf_values|] eqn:Epacf; [|done]. cbn [mbind option_bind].
  cbn. intros [= <-]. exists model, acf_values, pacf_values.
  repeat (split; [done|]).
  apply div_pos_finite_pos, SFsqrt_pos, of_Z_pos, len_nonneg.
Qed.

Lemma residual_plot_lags_and_bounds_witness :
  ∃ fig,
    outcome (generate_residual_plots Examples.lib0 Examples.repo_a "A") = Some (Some fig) ∧
    Z.max 2 (Z.min 20 (len (dropna Standin.resid12) / 2 - 1)) = 5 ∧
    (length ∘ Fig.values) <$> Fig.traces fig = [12; 12; 6; 6]%nat.
Proof.
  assert (∃ fig, outcome (generate_residual_plots Examples.lib0 Examples.repo_a "A")
                 = Some (Some fig)) as [fig Hfig] by (eexists; vm_compute; reflexivity).
  exists fig. split; [exact Hfig|]. split; [vm_compute; reflexivity|].
  destruct (residual_plot_lags_and_bounds Examples.lib0 Examples.repo_a "A" fig Hfig)
    as (model & a & p & Hm & Ha & Hp & Htr & _).
  injection Hm as <-. vm_compute in Ha. injection Ha as <-.
  vm_compute in Hp. injection Hp as <-. rewrite Htr. vm_compute. reflexivity.
Defined.

(** ** Plots and the log *)

Lemma yields_ret {A} (Q : A → Prop) (a : A) : Q a → yields Q (mret a).
Proof. intros H a' [= <-]. done. Qed.

Lemma yields_bind {A B} (Q : B → Prop) (m : M A) (f : A → M B) :
  (∀ a, yields Q (f a)) → yields Q (m ≫= f).
Proof.
  intros Hf b. rewrite outcome_bind. destruct (outcome m) as [a|]; [|done]. apply Hf.
Qed.

Ltac yields_step :=
  first
    [ by apply yields_ret
    | apply yields_bind; intros ?
    | match goal with |- yields _ (if ?b then _ else _) => destruct b end
    | progress cbv zeta ].

(** A guarded body that can only return a result: the operation is
    absent exactly when the body raised, and then one error is logged. *)
Lemma guarded_absent_is_logged {A} (body : M (option A)) district :
  only (λ e, ∀ d, e ≠ LogError d) body →
  yields is_Some body →
  let m := try_except body (emit (LogError district) ;; mret None) in
  logged_errors (trace m) = if succeeds m then [] else [district].
Proof.
  intros Ho Hy m. unfold m, succeeds. rewrite logged_errors_try by done.
  rewrite outcome_try_except.
  destruct (outcome body) as [[r|]|] eqn:E; try done.
  by destruct (Hy None E).
Qed.

(** X9. For a region of the repository, each of the two plot functions
    logs one error, for this region, when it returns no figure, and
    logs none when it returns one. *)
Theorem plot_absent_iff_error_logged lib self district forecast_periods confidence_level
    show_fitted :
  district ∈ get_districts self →
  let forecast_plot := generate_forecast_plot self district forecast_periods
                         confidence_level show_fitted in
  let residual_plots := generate_residual_plots lib self district in
  logged_errors (trace forecast_plot) = (if succeeds forecast_plot then [] else [district]) ∧
  logged_errors (trace residual_plots) = (if succeeds residual_plots then [] else [district]).
Proof.
  intros Hin. cbv zeta. unfold generate_forecast_plot, generate_residual_plots.
  destruct (dict_get district (models self)) as [model|] eqn:Em;
    [|by apply dict_get_None in Em].
  split.
  - rewrite trace_bind. cbn [outcome read_stats trace from_option].
    change (logged_errors ([ReadStats district] ++ ?t)) with (logged_errors t).
    unfold succeeds at 1.
    rewrite (outcome_bind_Some _ _ (default Stats.empty (district_stats self !! district)))
      by done.
    apply (guarded_absent_is_logged _ district).
    + repeat only_step. 
    + repeat yields_step.
  - apply (guarded_absent_is_logged _ district).
    + repeat only_step.
    + repeat yields_step.
Qed.

Lemma plot_absent_iff_error_logged_witness :
  ("C" ∈ get_districts Examples.repo_three) ∧
  succeeds (generate_residual_plots Examples.lib0 Examples.repo_three "C") = true ∧
  logged_errors (trace (generate_residual_plots Examples.lib0 Examples.repo_three "C")) = [] ∧
  succeeds (generate_forecast_plot Examples.repo_three "C" (-1) F64.c0_95 true) = false ∧
  logged_errors (trace (generate_forecast_plot Examples.repo_three "C" (-1) F64.c0_95 true))
    = ["C"].
Proof.
  assert ("C" ∈ get_districts Examples.repo_three) as Hin.
  { apply (bool_decide_unpack _). vm_compute. exact I. }
  split; [exact Hin|].
  destruct (plot_absent_iff_error_logged Examples.lib0 Examples.repo_three "C" (-1)
              F64.c0_95 true Hin) as [Hf Hr].
  assert (succeeds (generate_residual_plots Examples.lib0 Examples.repo_three "C") = true)
    as Hs1 by (vm_compute; reflexivity).
  assert (succeeds (generate_forecast_plot Examples.repo_three "C" (-1) F64.c0_95 true) = false)
    as Hs2 by (vm_compute; reflexivity).
  cbv zeta in Hf, Hr. rewrite Hs1 in Hr. rewrite Hs2 in Hf.
  split; [exact Hs1|]. split; [exact Hr|]. split; [exact Hs2|exact Hf].
Defined.

(** ** What a row of the summary table is made of *)

(** X10. Given a sort that rearranges, every row of the summary table
    belongs to a region of the repository and is the row built from the
    results that [compute_diagnostics] and [compute_metrics] (with their
    default arguments) return for that very region; its CI coverage is
    absent. *)
Theorem summary_rows_come_from_their_region lib self table row :
  (∀ rows, sort_values lib Row.RMSE rows ≡ₚ rows) →
  outcome (generate_summary_table lib self) = Some table →
  row ∈ table →
  ∃ d m,
    Row.District row ∈ get_districts self ∧
    outcome (compute_diagnostics lib self (Row.District row)) = Some (Some d) ∧
    outcome (compute_metrics self (Row.District row) 6) = Some (Some m) ∧
    row = summary_row lib (Row.District row) d m ∧
    Row.CI_Coverage row = None.
Proof.
  intros Hsort Ht Hrow.
  destruct (summary_table_permutation lib self Hsort) as (table' & Ht' & Hperm).
  rewrite Ht in Ht'. injection Ht' as <-. rewrite Hperm in Hrow.
  unfold spec_summary_rows in Hrow.
  apply list_elem_of_omap in Hrow as (district & Hin & Hrow).
  pose proof (row_of_district _ _ _ _ Hrow) as Hd.
  unfold row_of in Hrow.
  destruct (outcome (compute_diagnostics lib self district)) as [[d|]|] eqn:Ed; try done.
  destruct (outcome (compute_metrics self district 6)) as [[m|]|] eqn:Em; try done.
  injection Hrow as <-. cbn [Row.District] in *. exists d, m.
  repeat (split; [done|]).
  apply compute_metrics_inv in Em as (model & _ & Hr).
  apply spec_metrics_inv in Hr as (_ & _ & _ & _ & Hci).
  cbn. by rewrite Hci.
Qed.

Lemma summary_rows_come_from_their_region_witness :
  ∃ table row,
    outcome (generate_summary_table Examples.lib0 Examples.repo_three) = Some table ∧
    head table = Some row ∧
    Row.District row = "B" ∧ Row.CI_Coverage row = None.
Proof.
  assert (∃ table row,
            outcome (generate_summary_table Examples.lib0 Examples.repo_three) = Some table ∧
            head table = Some row ∧ Row.District row = "B") as (table & row & Ht & Hh & Hd).
  { eexists _, _. split; [vm_compute; reflexivity|]. split; reflexivity. }
  exists table, row. split; [exact Ht|]. split; [exact Hh|]. split; [exact Hd|].
  destruct (summary_rows_come_from_their_region Examples.lib0 Examples.repo_three table row)
    as (d & m & _ & _ & _ & _ & Hci).
  - intros rows. apply merge_sort_Permutation.
  - exact Ht.
  - destruct table as [|r t]; [discriminate Hh|]. injection Hh as ->. left.
  - exact Hci.
Defined.

(** X11. The diagnostics, the metrics and the summary table are in-sample:
    no model is asked for a forecast or for a forecast interval while
    they are computed. *)
Theorem summary_table_never_forecasts lib self district forecast_periods :
  only in_sample (compute_diagnostics lib self district) ∧
  only in_sample (compute_metrics self district forecast_periods) ∧
  only in_sample (generate_summary_table lib self).
Proof.
  assert (∀ d, only in_sample (compute_diagnostics lib self d)) as Hd.
  { intros d. unfold compute_diagnostics.
    destruct (dict_get d (models self)); [|apply only_ret].
    repeat only_step_with ltac:(by intros []). apply only_try_except;
      repeat only_step_with ltac:(by intros []). }
  assert (∀ d fp, only in_sample (compute_metrics self d fp)) as Hm.
  { intros d fp. unfold compute_metrics.
    destruct (dict_get d (models self)); [|apply only_ret].
    repeat only_step_with ltac:(by intros []). apply only_try_except;
      repeat only_step_with ltac:(by intros []). }
  split; [apply Hd|]. split; [apply Hm|].
  unfold generate_summary_table. apply only_bind.
  - apply only_for_fold. intros d rows.
    apply only_bind; [apply Hd|intros ? _]. apply only_bind; [apply Hm|intros ? _].
    repeat only_step.
  - intros rows _. repeat only_step.
Qed.

(** ** The forecast export, whatever fails *)

Lemma take_seqZ j m n : take j (seqZ m n) = seqZ m (Z.of_nat (j `min` Z.to_nat n)).
Proof. unfold seqZ. by rewrite <-fmap_take, take_seq, Nat2Z.id. Qed.

Lemma warned_app tr1 tr2 : warned (tr1 ++ tr2) = warned tr1 ++ warned tr2.
Proof. apply omap_app. Qed.

Lemma only_no_warnings {A} (m : M A) :
  only (λ e, ∀ d, e ≠ LogWarning d) m → warned (trace m) = [].
Proof.
  unfold only. induction 1 as [|e tr He _ IH]; [done|].
  destruct e; try done. by destruct (He district).
Qed.

Lemma only_no_rows {A} (m : M A) :
  only (λ e, ∀ r, e ≠ Append r) m → appended (trace m) = [].
Proof.
  unfold only. induction 1 as [|e tr He _ IH]; [done|].
  destruct e; try done. by destruct (He row).
Qed.

Section export_any.
Context (lib : Lib).

(** A row that cannot be built appends nothing. *)
Lemma export_row_fails district predictions conf_int i :
  outcome (export_row lib district predictions conf_int i) = None →
  appended (trace (export_row lib district predictions conf_int i)) = [].
Proof.
  unfold export_row. rewrite !outcome_bind, !trace_bind. cbn [outcome trace call].
  destruct (strftime_months_ahead lib (i + 1)) as [date|]; [|done].
  cbn [mbind option_bind from_option]. rewrite !outcome_bind, !trace_bind. cbn [outcome trace call].
  destruct (py_index predictions i) as [forecast|]; [|done].
  cbn [mbind option_bind from_option]. rewrite !outcome_bind, !trace_bind. cbn [outcome trace call].
  destruct (py_index conf_int.*1 i) as [lower|]; [|done].
  cbn [mbind option_bind from_option]. rewrite !outcome_bind, !trace_bind. cbn [outcome trace call].
  destruct (py_index conf_int.*2 i) as [upper|]; done.
Qed.

(** The rows of a district's inner loop are those of the steps before
    the first one that fails. *)
Lemma export_rows_prefix district predictions conf_int steps :
  ∃ j, (j ≤ length steps)%nat ∧
    district_periods
      (appended (trace (for_each steps (export_row lib district predictions conf_int))))
    = (λ i, (district, i + 1)) <$> take j steps ∧
    (outcome (for_each steps (export_row lib district predictions conf_int)) = Some () →
     j = length steps).
Proof.
  induction steps as [|i steps (j & Hj & Hrows & Hall)].
  { exists 0%nat. by repeat split. }
  rewrite for_each_cons, outcome_bind, trace_bind.
  destruct (outcome (export_row _ _ _ _ i)) as [[]|] eqn:Hi.
  - exists (S j). cbn [mbind option_bind from_option length take].
    split; [lia|]. split.
    + by rewrite district_periods_app, (export_row_trace _ _ _ _ _ Hi), Hrows.
    + intros H. by rewrite Hall.
  - exists 0%nat. cbn [mbind option_bind from_option]. split; [lia|]. split; [|done].
    by rewrite app_nil_r, export_row_fails.
Qed.

Lemma export_district_prefix district model forecast_periods :
  ∃ k, 0 <= k <= Z.max 0 forecast_periods ∧
    district_periods (appended (trace (export_district lib district model forecast_periods)))
    = (λ i, (district, i + 1)) <$> py_range k ∧
    (outcome (export_district lib district model forecast_periods) = Some () →
     k = Z.max 0 forecast_periods).
Proof.
  unfold export_district, model_get_forecast, forecast_conf_int.
  rewrite !outcome_bind, !trace_bind. cbn [outcome trace].
  destruct (Model.get_forecast model forecast_periods) as [fr|];
    [|exists 0; split; [lia|]; by split].
  cbn [mbind option_bind from_option]. rewrite !outcome_bind, !trace_bind. cbn [outcome trace].
  destruct (Forecast.conf_int fr F64.c0_05) as [ci|];
    [|exists 0; split; [lia|]; by split].
  cbn [mbind option_bind from_option].
  destruct (export_rows_prefix district (Forecast.predicted_mean fr) ci
              (py_range forecast_periods)) as (j & Hj & Hrows & Hall).
  unfold py_range in Hj. rewrite length_seqZ in Hj.
  exists (Z.of_nat j). split; [lia|]. split.
  - rewrite !district_periods_app, Hrows.
    change (district_periods (appended [ReadModel district ?a])) with (@nil (string * Z)).
    unfold py_range. rewrite take_seqZ. cbn [app]. do 2 f_equal. lia.
  - intros H. rewrite (Hall H). unfold py_range. rewrite length_seqZ. lia.
Qed.

Context (self : ARIMADiagnostics) (forecast_periods : Z).

Lemma export_step_prefix district :
  ∃ k, 0 <= k <= Z.max 0 forecast_periods ∧
    district_periods (appended (trace (export_step lib self forecast_periods district)))
    = (λ i, (district, i + 1)) <$> py_range k ∧
    (export_completes lib self forecast_periods district = true →
     k = Z.max 0 forecast_periods).
Proof.
  unfold export_step, export_completes.
  destruct (dict_get district (models self)) as [model|] eqn:E;
    [|exists 0; split; [lia|]; by split].
  rewrite bind_call_Some, trace_try_except, district_periods_app.
  destruct (export_district_prefix district model forecast_periods) as (k & Hk & Hrows & Hall).
  exists k. split; [done|]. rewrite Hrows.
  destruct (outcome (export_district _ _ _ _)) as [[]|] eqn:Ho.
  - split; [by rewrite app_nil_r|]. intros _. by apply Hall.
  - split; [by rewrite app_nil_r|done].
Qed.

Lemma export_loop_prefix districts :
  ∃ ks,
    Forall2 (λ d k, 0 <= k <= Z.max 0 forecast_periods ∧
                    (export_completes lib self forecast_periods d = true →
                     k = Z.max 0 forecast_periods)) districts ks ∧
    district_periods
      (appended (districts ≫= λ d, trace (export_step lib self forecast_periods d)))
    = mjoin (zip_with (λ d k, (λ i, (d, i + 1)) <$> py_range k) districts ks).
Proof.
  induction districts as [|d ds (ks & Hks & Hrows)]; [by exists []|].
  destruct (export_step_prefix d) as (k & Hk & Hrow & Hall).
  exists (k :: ks). split; [by constructor|].
  by rewrite bind_cons, district_periods_app, Hrow, Hrows.
Qed.

Lemma export_step_warned district :
  district ∈ get_districts self →
  warned (trace (export_step lib self forecast_periods district))
  = if export_completes lib self forecast_periods district then [] else [district].
Proof.
  intros Hin. unfold export_step, export_completes.
  destruct (dict_get district (models self)) as [model|] eqn:E;
    [|by apply dict_get_None in E].
  rewrite bind_call_Some, trace_try_except, warned_app.
  rewrite only_no_warnings.
  - by destruct (outcome _).
  - unfold export_district. apply only_bind; [by repeat constructor|intros fr _].
    cbv zeta. apply only_bind; [by repeat constructor|intros ci _].
    induction (py_range forecast_periods) as [|i steps IH]; [apply only_ret|].
    rewrite for_each_cons. apply only_bind; [|by intros].
    unfold export_row. repeat only_step.
Qed.

Lemma export_loop_warned districts :
  districts ⊆ get_districts self →
  warned (districts ≫= λ d, trace (export_step lib self forecast_periods d))
  = filter (λ d, export_completes lib self forecast_periods d = false) districts.
Proof.
  induction districts as [|d ds IH]; intros Hsub; [done|].
  rewrite bind_cons, warned_app, export_step_warned, IH, filter_cons.
  - by destruct (export_completes _ _ _ d).
  - intros x Hx. apply Hsub. by right.
  - apply Hsub. by left.
Qed.

Lemma export_run :
  export_forecasts_csv lib self forecast_periods
  = let tr := get_districts self ≫= λ d, trace (export_step lib self forecast_periods d) in
    Run tr (Some (appended tr)).
Proof.
  destruct (for_each_no_raise (get_districts self)
              (export_step lib self forecast_periods)) as [Ho Ht].
  { intros d Hd. by apply export_step_outcome. }
  unfold export_forecasts_csv, listen. rewrite Ho, Ht. cbn.
  unfold mbind, M_bind. cbn. by rewrite app_nil_r.
Qed.

(** X12. No failure of a region's forecast escapes the loop of
    [export_forecasts_csv]: the rows of forecasts.csv are always built,
    and they are, region after region in traversal order, the periods
    [1 .. k] of the region for some [k] between 0 and the horizon: all
    of them when the region's export completes, those appended before
    the failure otherwise. *)
Theorem export_rows_are_prefixes :
  ∃ rows ks,
    outcome (export_forecasts_csv lib self forecast_periods) = Some rows ∧
    Forall2 (λ d k, 0 <= k <= Z.max 0 forecast_periods ∧
                    (export_completes lib self forecast_periods d = true →
                     k = Z.max 0 forecast_periods)) (get_districts self) ks ∧
    district_periods rows
    = mjoin (zip_with (λ d k, (λ i, (d, i + 1)) <$> py_range k) (get_districts self) ks).
Proof.
  rewrite export_run. cbv zeta. cbn [outcome].
  destruct (export_loop_prefix (get_districts self)) as (ks & Hks & Hrows).
  by eexists _, ks.
Qed.

(** X13. [export_forecasts_csv] logs one warning for each region whose
    export does not complete, in traversal order, and none for the
    others. *)
Theorem export_warns_for_failed_regions :
  warned (trace (export_forecasts_csv lib self forecast_periods))
  = filter (λ d, export_completes lib self forecast_periods d = false) (get_districts self).
Proof. rewrite export_run. cbv zeta. cbn [trace]. by apply export_loop_warned. Qed.

End export_any.
